(** * PyTomoATT, [pytomoatt/io/crust.py]: regridding of the CRUST1.0 model

    A shallow embedding of [find_adjacent_point] and of the class
    [CrustModel] ([model2points], [griddata], [smooth]) and the properties
    of the regridding pipeline proved about it.

    numpy's [float64] is Rocq's primitive binary64 [float]; an [ndarray] of
    rank 3 is its shape together with its row-major buffer; Python
    exceptions are values of [exn]; a method is a computation over the
    state it mutates, and that state survives an exception. *)

From Stdlib Require Import ZArith Lia List Bool.
From Stdlib Require Import Floats.
From Equations Require Import Equations.
From stdpp Require Import base list gmap strings.

(** ** Exceptions and stateful computations *)

(** The exceptions the module's code and the numpy and scipy calls it makes
    can raise. *)
Inductive exn : Type :=
  | IndexError      (* subscript out of range *)
  | AttributeError  (* attribute read before it was assigned *)
  | QhullError.     (* scipy: the Delaunay triangulation cannot be built *)

Definition result (A : Type) : Type := exn + A.

(** A computation over a mutable state [S]: the state reached is returned
    also when an exception is raised, as Python keeps the assignments made
    before the [raise]. *)
Definition M (S A : Type) : Type := S → result A * S.

Definition ret {S A} (a : A) : M S A := λ s, (inr a, s).
Definition raise {S A} (e : exn) : M S A := λ s, (inl e, s).
Definition bind {S A B} (c : M S A) (k : A → M S B) : M S B :=
  λ s, match c s with
       | (inr a, s') => k a s'
       | (inl e, s') => (inl e, s')
       end.
Definition get_state {S} : M S S := λ s, (inr s, s).
Definition modify {S} (f : S → S) : M S unit := λ s, (inr tt, f s).
(** A subscript [l[i]] that raises [IndexError] out of range. *)
Definition subscript {S A} (l : list A) (i : nat) : M S A :=
  match l !! i with Some x => ret x | None => raise IndexError end.

#[global] Instance M_ret {S} : MRet (M S) := λ A, @ret S A.
#[global] Instance M_bind {S} : MBind (M S) := λ A B k c, @bind S A B c k.

(** [for x in l: body(x)] *)
Fixpoint for_each {S A} (l : list A) (body : A → M S unit) : M S unit :=
  match l with
  | [] => ret tt
  | x :: l' => body x ;; for_each l' body
  end.

(** Python's [enumerate]: the elements paired with their positions. *)
Fixpoint enumerate_from {A} (n : nat) (l : list A) : list (nat * A) :=
  match l with
  | [] => []
  | x :: l' => (n, x) :: enumerate_from (S n) l'
  end.
Definition enumerate {A} (l : list A) : list (nat * A) := enumerate_from 0 l.

(** ** [find_adjacent_point] *)

Section SearchSorted.
Context {A : Type}.
(** The order of the array's element type, as numpy's sort order has it
    (for floats, [<] with NaN sorted last). *)
Variable less : A → A → bool.

(** numpy's binary search for [side='left'] between [min_idx] and
    [max_idx]: the bounds close in on the first position whose element is
    not less than [key]. *)
Equations? binsearch_left (arr : list A) (key : A) (min_idx max_idx : nat)
  : nat by wf (max_idx - min_idx) lt :=
  binsearch_left arr key min_idx max_idx with decide (min_idx < max_idx) := {
    | right _ := min_idx
    | left _ with arr !! (min_idx + (max_idx - min_idx) / 2) := {
        | Some mid_val with less mid_val key := {
            | true := binsearch_left arr key (S (min_idx + (max_idx - min_idx) / 2)) max_idx
            | false := binsearch_left arr key min_idx (min_idx + (max_idx - min_idx) / 2) }
        | None := min_idx } }.
Proof.
  all: pose proof (Nat.div_lt (max_idx - min_idx) 2); lia.
Qed.

(** [np.searchsorted(array, point)] for one point. *)
Definition searchsorted (array : list A) (point : A) : nat :=
  binsearch_left array point 0 (length array).

(** [np.where(cond, None, x)] at one position. *)
Definition where_none (cond : bool) (x : Z) : option Z :=
  if cond then None else Some x.

(** [find_adjacent_point] for a point value. *)
Definition find_adjacent_point (point : A) (array : list A) : option Z * option Z :=
  let index := Z.of_nat (searchsorted array point) in
  let left_indices := where_none (index =? 0)%Z (index - 1)%Z in
  let right_indices := where_none (index =? Z.of_nat (length array))%Z index in
  (left_indices, right_indices).

(** [find_adjacent_point] for an array of points: [np.searchsorted] and
    [np.where] work position by position. *)
Definition find_adjacent_points (points array : list A)
  : list (option Z) * list (option Z) :=
  let index := map (λ p, Z.of_nat (searchsorted array p)) points in
  let left_indices := map (λ ix, where_none (ix =? 0)%Z (ix - 1)%Z) index in
  let right_indices := map (λ ix, where_none (ix =? Z.of_nat (length array))%Z ix) index in
  (left_indices, right_indices).

(** The array is sorted (non-decreasing): no element is less than the one
    before it. *)
Fixpoint sorted (array : list A) : bool :=
  match array with
  | x :: (y :: _) as rest => negb (less y x) && sorted rest
  | _ => true
  end.
End SearchSorted.

(** ** The data of a [CrustModel] *)

(** A row [[dep, lat, lon, vp]] of the point array. *)
Definition row : Type := float * float * float * float.

(** An entry [mod_data[i][j]] of the source model: the depth profile of one
    geographic cell, with keys ['depth'] and ['vp']. *)
Record profile : Type := { depth : list float; vp : list float }.

(** A rank-3 [numpy.ndarray] of floats: its shape and its buffer, in
    row-major order. *)
Record ndarray : Type := { shape : nat * nat * nat; buf : list float }.

(** The attributes of a [CrustModel] object. Those that a method assigns
    after construction are [None] until then: reading one raises
    [AttributeError]. *)
Module CrustModel.
Record t : Type := mk {
  mod_data : list (list profile);
  mod_lat : list float;
  mod_lon : list float;
  points : option (list row);
  dd : option (list float);
  tt : option (list float);
  pp : option (list float);
  eta : option ndarray;
  xi : option ndarray;
  zeta : option ndarray;
  vel : option ndarray }.

Definition set_points (v : list row) (o : t) : t :=
  mk (mod_data o) (mod_lat o) (mod_lon o) (Some v)
     (dd o) (tt o) (pp o) (eta o) (xi o) (zeta o) (vel o).
Definition set_dd (v : list float) (o : t) : t :=
  mk (mod_data o) (mod_lat o) (mod_lon o) (points o)
     (Some v) (tt o) (pp o) (eta o) (xi o) (zeta o) (vel o).
Definition set_tt (v : list float) (o : t) : t :=
  mk (mod_data o) (mod_lat o) (mod_lon o) (points o)
     (dd o) (Some v) (pp o) (eta o) (xi o) (zeta o) (vel o).
Definition set_pp (v : list float) (o : t) : t :=
  mk (mod_data o) (mod_lat o) (mod_lon o) (points o)
     (dd o) (tt o) (Some v) (eta o) (xi o) (zeta o) (vel o).
Definition set_eta (v : ndarray) (o : t) : t :=
  mk (mod_data o) (mod_lat o) (mod_lon o) (points o)
     (dd o) (tt o) (pp o) (Some v) (xi o) (zeta o) (vel o).
Definition set_xi (v : ndarray) (o : t) : t :=
  mk (mod_data o) (mod_lat o) (mod_lon o) (points o)
     (dd o) (tt o) (pp o) (eta o) (Some v) (zeta o) (vel o).
Definition set_zeta (v : ndarray) (o : t) : t :=
  mk (mod_data o) (mod_lat o) (mod_lon o) (points o)
     (dd o) (tt o) (pp o) (eta o) (xi o) (Some v) (vel o).
Definition set_vel (v : ndarray) (o : t) : t :=
  mk (mod_data o) (mod_lat o) (mod_lon o) (points o)
     (dd o) (tt o) (pp o) (eta o) (xi o) (zeta o) (Some v).

(** The object as [np.load] leaves it, before [model2points] runs. *)
Definition loaded (data : list (list profile)) (lat lon : list float) : t :=
  mk data lat lon None None None None None None None None.
End CrustModel.

(** The stages of the pipeline. *)
Inductive stage : Type := Axes | Interpolate | FillHoles | Output | Smooth.

(** What a run leaves in its ghost trace: the stages it entered, and the
    row count of every array it allocated for the point container. *)
Inductive event : Type :=
  | Enter (s : stage)
  | Alloc (rows : nat).

(** The state a method runs on: the object, and the ghost trace of the run. *)
Record world : Type := { self : CrustModel.t; trace : list event }.

Definition emit (e : event) : M world unit :=
  modify (λ w, {| self := self w; trace := trace w ++ [e] |}).
(** [self.attr = v] *)
Definition assign (f : CrustModel.t → CrustModel.t) : M world unit :=
  modify (λ w, {| self := f (self w); trace := trace w |}).
(** [self.attr], for an attribute that is always there. *)
Definition field {A} (f : CrustModel.t → A) : M world A :=
  λ w, (inr (f (self w)), w).
(** [self.attr], for an attribute assigned by a method. *)
Definition attr {A} (f : CrustModel.t → option A) : M world A :=
  λ w, match f (self w) with
       | Some a => (inr a, w)
       | None => (inl AttributeError, w)
       end.

(** ** [CrustModel.model2points] *)

(** [np.empty([0, 4])]: a fresh array of no rows. *)
Definition np_empty_rows : M world (list row) :=
  emit (Alloc 0);; mret [].

(** [np.vstack([a, r])]: a fresh array, one row longer than [a], holding
    the rows of [a] and then [r]. *)
Definition np_vstack (a : list row) (r : row) : M world (list row) :=
  emit (Alloc (S (length a)));; mret (a ++ [r]).

Definition model2points : M world unit :=
  empty ← np_empty_rows;
  assign (CrustModel.set_points empty);;
  mod_lat ← field CrustModel.mod_lat;
  for_each (enumerate mod_lat) (λ '(i, lat),
    mod_lon ← field CrustModel.mod_lon;
    for_each (enumerate mod_lon) (λ '(j, lon),
      mod_data ← field CrustModel.mod_data;
      data_i ← subscript mod_data i;
      cell ← subscript data_i j;
      let all_dep := depth cell in
      let all_vp := vp cell in
      for_each (enumerate all_dep) (λ '(k, dep),
        points ← attr CrustModel.points;
        v ← subscript all_vp k;
        stacked ← np_vstack points (dep, lat, lon, v);
        assign (CrustModel.set_points stacked)))).

(** [CrustModel.__init__], after [np.load] has read the three arrays. *)
Definition init (data : list (list profile)) (lat lon : list float)
  : result unit * world :=
  model2points {| self := CrustModel.loaded data lat lon; trace := [] |}.

(** The rows of one cell, in the order of its samples. *)
Definition cell_rows (lat lon : float) (cell : profile) : list row :=
  zip_with (λ dep v, (dep, lat, lon, v)) (depth cell) (vp cell).

(** The cell of the source model at latitude index [i] and longitude
    index [j]. *)
Definition cell_at (data : list (list profile)) (i j : nat) : option profile :=
  data !! i ≫= λ data_i, data_i !! j.

(** The flattening as the specification words it: the tuples of every cell,
    over all latitude and longitude indices. *)
Definition flattened (data : list (list profile)) (lat lon : list float) : list row :=
  concat (map (λ '(i, la),
    concat (map (λ '(j, lo),
      match cell_at data i j with
      | Some cell => cell_rows la lo cell
      | None => []
      end) (enumerate lon))) (enumerate lat)).

(** The sum of the profile lengths over all cells. *)
Definition total_samples (data : list (list profile)) (lat lon : list float) : nat :=
  sum_list (map (λ i,
    sum_list (map (λ j,
      match cell_at data i j with
      | Some cell => length (depth cell)
      | None => 0
      end) (seq 0 (length lon)))) (seq 0 (length lat))).

(** A source model is well formed when [data] has a cell for every pair of
    a latitude and a longitude index, and each cell has a velocity for each
    of its depths. *)
Definition wf_source (data : list (list profile)) (lat lon : list float) : bool :=
  forallb (λ i,
    forallb (λ j,
      match cell_at data i j with
      | Some cell => length (depth cell) <=? length (vp cell)
      | None => false
      end) (seq 0 (length lon))) (seq 0 (length lat)).

(** ** Arrays *)

#[global] Instance float_inhabited : Inhabited float := populate 0%float.

(** The number of entries of an array of shape [sh]. *)
Definition size (sh : nat * nat * nat) : nat :=
  let '(n0, n1, n2) := sh in n0 * n1 * n2.

(** The buffer of an array has one entry per index triple. *)
Definition wf_array (a : ndarray) : Prop := length (buf a) = size (shape a).

(** The position of the entry [[d, i, j]] in the buffer. *)
Definition offset (sh : nat * nat * nat) (d i j : nat) : nat :=
  let '(_, n1, n2) := sh in (d * n1 + i) * n2 + j.

(** The index triple of the buffer position [k]. *)
Definition unravel (sh : nat * nat * nat) (k : nat) : nat * nat * nat :=
  let '(_, n1, n2) := sh in (k / (n1 * n2), (k / n2) mod n1, k mod n2).

(** [a[d, i, j]], for an index triple within the shape. *)
Definition get (a : ndarray) (d i j : nat) : float :=
  buf a !!! offset (shape a) d i j.

Definition depth_count (a : ndarray) : nat := (shape a).1.1.

(** The values seen through the view [a[:, i, j]]. *)
Definition column (a : ndarray) (i j : nat) : list float :=
  map (λ d, get a d i j) (seq 0 (depth_count a)).

(** [a[lo:hi, i, j] = v], as also a write through the view [a[:, i, j]]
    does it. *)
Definition assign_slice (a : ndarray) (i j lo hi : nat) (v : float) : ndarray :=
  {| shape := shape a;
     buf := foldl (λ b d, <[offset (shape a) d i j := v]> b) (buf a) (seq lo (hi - lo)) |}.

(** [np.zeros(sh)] *)
Definition np_zeros (sh : nat * nat * nat) : ndarray :=
  {| shape := sh; buf := replicate (size sh) 0%float |}.

(** [np.where(mask)[0]] for a mask of rank 1: the positions that hold
    [True], in increasing order. *)
Definition np_where (mask : list bool) : list nat :=
  omap (λ '(k, b), if b : bool then Some k else None) (enumerate mask).

(** [~np.isnan(c)] *)
Definition not_nan (c : list float) : list bool := map (λ x, negb (is_nan x)) c.

(** [l[-1]] *)
Definition subscript_last {S A} (l : list A) : M S A :=
  match last l with Some x => mret x | None => raise IndexError end.

(** ** The hole-filling pass of [CrustModel.griddata] *)

(** One turn of the inner loop, on the local array [grid_vp]. The view
    [vp_dep = grid_vp[:, i, j]] shares the array's buffer, so the two slice
    assignments write into [grid_vp], and the closing
    [grid_vp[:, i, j] = vp_dep] copies the column onto itself. *)
Definition fill_column (i j : nat) : M ndarray unit :=
  grid_vp ← get_state;
  let '(n0, n1, n2) := shape grid_vp in
  if decide (i < n1 ∧ j < n2) then
    let vp_dep := column grid_vp i j in
    first_non_nan_index ← subscript (np_where (not_nan vp_dep)) 0;
    last_non_nan_index ← subscript_last (np_where (not_nan vp_dep));
    modify (λ g, assign_slice g i j 0 first_non_nan_index (get g first_non_nan_index i j));;
    modify (λ g, assign_slice g i j (S last_non_nan_index) n0 (get g last_non_nan_index i j))
  else raise IndexError.

Definition fill_holes (tt pp : list float) : M ndarray unit :=
  for_each (enumerate tt) (λ '(i, _),
    for_each (enumerate pp) (λ '(j, _),
      fill_column i j)).

(** A computation on a local variable, inside a method. *)
Definition local {S T A} (c : M T A) (t : T) : M S T :=
  λ s, match c t with
       | (inr _, t') => (inr t', s)
       | (inl e, _) => (inl e, s)
       end.

Definition lift {S A} (r : result A) : M S A :=
  match r with inr a => mret a | inl e => raise e end.

(** The sublists of [k] elements of [l]. *)
Fixpoint choose {A} (k : nat) (l : list A) : list (list A) :=
  match k, l with
  | 0, _ => [[]]
  | S _, [] => []
  | S k', x :: l' => map (cons x) (choose k' l') ++ choose k l'
  end.

Definition point3 : Type := float * float * float.

(** [points[:, 0:3]] and [points[:, 3]] *)
Definition coordinates (points : list row) : list point3 :=
  map (λ '(dep, lat, lon, _), (dep, lat, lon)) points.
Definition values (points : list row) : list float :=
  map (λ '(_, _, _, v), v) points.

(** ** The pipeline: [griddata] and [smooth] *)

Section Pipeline.
(** What the numerical libraries compute in floating point is left open:
    whether four points span a volume, the value of the piecewise linear
    interpolant of a point cloud at a query point (NaN outside the hull of
    the cloud), the [k]-th of [n] coordinates of an axis between two bounds,
    and the weights of the Gaussian kernel of a given spread. *)
Variable non_coplanar : point3 → point3 → point3 → point3 → bool.
Variable linear_interpolant : list point3 → list float → point3 → float.
Variable axis_sample : float → float → nat → nat → float.
Variable gaussian_kernel1d : float → list float.

(** Modelled from the spec: the axis generator [init_axis] of
    [pytomoatt.utils], whose source is not part of this module. From the
    bounds and the counts it gives the depth, latitude and longitude axes,
    each with as many coordinates as its count says. *)
Definition init_axis (min_max_dep min_max_lat min_max_lon : float * float)
    (n_rtp : nat * nat * nat) : list float * list float * list float :=
  let '(n_dep, n_lat, n_lon) := n_rtp in
  (map (axis_sample min_max_dep.1 min_max_dep.2 n_dep) (seq 0 n_dep),
   map (axis_sample min_max_lat.1 min_max_lat.2 n_lat) (seq 0 n_lat),
   map (axis_sample min_max_lon.1 min_max_lon.2 n_lon) (seq 0 n_lon)).

(** A point cloud can be triangulated when four of its points are not
    coplanar. *)
Definition triangulable (cloud : list point3) : bool :=
  existsb (λ s, match s with
                | [a; b; c; d] => non_coplanar a b c d
                | _ => false
                end) (choose 4 cloud).

(** [np.meshgrid(dd, tt, pp, indexing='ij')], as the list of the query
    points in row-major order. *)
Definition meshgrid (dd tt pp : list float) : list point3 :=
  d ← dd; t ← tt; p ← pp; [(d, t, p)].

(** Modelled from the spec: [scipy.interpolate.griddata] with
    [method='linear'] on the query points of the three axes. It raises
    when the cloud has fewer than four non-coplanar points, and otherwise
    returns the interpolant's value at every query point, in an array of
    the shape of the axes' lengths. *)
Definition scipy_griddata (cloud : list point3) (vals : list float)
    (dd tt pp : list float) : result ndarray :=
  if triangulable cloud then
    inr {| shape := (length dd, length tt, length pp);
           buf := map (linear_interpolant cloud vals) (meshgrid dd tt pp) |}
  else inl QhullError.

Definition griddata (min_max_dep min_max_lat min_max_lon : float * float)
    (n_rtp : nat * nat * nat) : M world unit :=
  emit (Enter Axes);;
  let axes := init_axis min_max_dep min_max_lat min_max_lon n_rtp in
  assign (CrustModel.set_dd axes.1.1);;
  assign (CrustModel.set_tt axes.1.2);;
  assign (CrustModel.set_pp axes.2);;
  (* Grid data *)
  emit (Enter Interpolate);;
  dd ← attr CrustModel.dd;
  tt ← attr CrustModel.tt;
  pp ← attr CrustModel.pp;
  points ← attr CrustModel.points;
  grid_vp ← lift (scipy_griddata (coordinates points) (values points) dd tt pp);
  (* Set NaN to nearest value *)
  emit (Enter FillHoles);;
  tt ← attr CrustModel.tt;
  pp ← attr CrustModel.pp;
  grid_vp ← local (fill_holes tt pp) grid_vp;
  (* output *)
  emit (Enter Output);;
  assign (CrustModel.set_eta (np_zeros n_rtp));;
  assign (CrustModel.set_xi (np_zeros n_rtp));;
  assign (CrustModel.set_zeta (np_zeros n_rtp));;
  assign (CrustModel.set_vel grid_vp).

(** The position that the reflecting extension of an axis of length [n]
    (d c b a | a b c d | d c b a) gives the possibly outlying index [k]. *)
Definition reflect (n : nat) (k : Z) : nat :=
  let m := (k mod (2 * Z.of_nat n))%Z in
  Z.to_nat (if (m <? Z.of_nat n)%Z then m else (2 * Z.of_nat n - 1 - m)%Z).

(** The index triple [idx], moved by [o] along [axis] and reflected back
    into the shape. *)
Definition shifted (sh : nat * nat * nat) (axis : nat) (idx : nat * nat * nat)
    (o : Z) : nat * nat * nat :=
  let '(n0, n1, n2) := sh in
  let '(d, i, j) := idx in
  match axis with
  | 0 => (reflect n0 (Z.of_nat d + o), i, j)
  | 1 => (d, reflect n1 (Z.of_nat i + o), j)
  | _ => (d, i, reflect n2 (Z.of_nat j + o))
  end.

(** Modelled from the spec: the correlation of an array with a kernel of
    weights along one axis, edges extended by reflection. *)
Definition correlate1d (a : ndarray) (weights : list float) (axis : nat) : ndarray :=
  let radius := Z.of_nat (length weights / 2) in
  {| shape := shape a;
     buf := map (λ k,
              foldl (λ acc '(t, w),
                       let '(d, i, j) :=
                         shifted (shape a) axis (unravel (shape a) k) (Z.of_nat t - radius) in
                       (acc + w * get a d i j)%float)
                    0%float (enumerate weights))
            (seq 0 (size (shape a))) |}.

(** Modelled from the spec: [scipy.ndimage.gaussian_filter] with one spread
    for all axes, a separable filter: the Gaussian kernel applied along
    each axis in turn. A spread that is not above 1e-15 leaves the array as
    it is. *)
Definition gaussian_filter (a : ndarray) (sigma : float) : ndarray :=
  if (0x1.203af9ee75616p-50 <? sigma)%float then
    foldl (λ acc axis, correlate1d acc (gaussian_kernel1d sigma) axis) a [0; 1; 2]
  else a.

Definition smooth (sigma : float) : M world unit :=
  emit (Enter Smooth);;
  v ← attr CrustModel.vel;
  assign (CrustModel.set_vel (gaussian_filter v sigma)).
End Pipeline.


(** The row counts of the arrays that a trace records as allocated. *)
Definition allocations (tr : list event) : list nat :=
  omap (λ e, match e with Alloc n => Some n | Enter _ => None end) tr.

(** The state [w] with [pts] for the point container and [tr] for the
    trace. *)
Definition with_points (w : world) (pts : list row) (tr : list event) : world :=
  {| self := CrustModel.set_points pts (self w); trace := tr |}.

(** The state reached from [with_points w pts tr] by stacking the rows [rs]
    one at a time. *)
Definition stacked (w : world) (pts : list row) (tr : list event) (rs : list row) : world :=
  with_points w (pts ++ rs) (tr ++ map Alloc (seq (S (length pts)) (length rs))).

(** The rows of the cells of latitude index [i] from longitude index [j0]
    on, and of the latitudes from index [i0] on. *)
Definition rows_of_lons (data : list (list profile)) (i : nat) (la : float)
    (lons : list (nat * float)) : list row :=
  concat (map (λ '(j, lo),
    match cell_at data i j with
    | Some cell => cell_rows la lo cell
    | None => []
    end) lons).
Definition rows_of_lats (data : list (list profile)) (lon : list float)
    (lats : list (nat * float)) : list row :=
  concat (map (λ '(i, la), rows_of_lons data i la (enumerate lon)) lats).

(** Every cell is there and has a velocity for each of its depths. *)
Definition has_cells (data : list (list profile)) (n_lat n_lon : nat) : Prop :=
  ∀ i j, i < n_lat → j < n_lon →
    ∃ cell, cell_at data i j = Some cell ∧ length (depth cell) ≤ length (vp cell).

(** The source model of the boundary scenario: one cell at latitude 40 and
    longitude 117, with three samples. *)
Definition single_cell : list (list profile) :=
  [[ {| depth := [0; 10; 20]%float; vp := [5; 6; 6.5]%float |} ]].
Definition single_lat : list float := [40%float].
Definition single_lon : list float := [117%float].
Definition single_loaded : world :=
  {| self := CrustModel.loaded single_cell single_lat single_lon; trace := [] |}.

(** [np.where] from position [n] on, for the positions of a tail of a mask. *)
Definition where_from (n : nat) (mask : list bool) : list nat :=
  omap (λ '(k, b), if b : bool then Some k else None) (enumerate_from n mask).

(** The first and the last depth index at which the column [(i, j)] of an
    array holds a number, if there is one. *)
Definition first_defined (a : ndarray) (i j : nat) : option nat :=
  np_where (not_nan (column a i j)) !! 0.
Definition last_defined (a : ndarray) (i j : nat) : option nat :=
  last (np_where (not_nan (column a i j))).

(** The value that hole filling gives the entry [[d, i, j]]: above the first
    defined entry of the column the value of that entry, below the last one
    the value of the last one, the entry's own value in between. *)
Definition filled_value (a : ndarray) (d i j : nat) : float :=
  match first_defined a i j, last_defined a i j with
  | Some f, Some l =>
      if decide (d < f) then get a f i j
      else if decide (l < d) then get a l i j
      else get a d i j
  | _, _ => get a d i j
  end.

(** The column [(i, j)] lies within the array and holds a number somewhere. *)
Definition column_ok (a : ndarray) (i j : nat) : Prop :=
  i < (shape a).1.2 ∧ j < (shape a).2 ∧
  ∃ d, d < depth_count a ∧ is_nan (get a d i j) = false.

(** The state of the hole-filling loops on the array [g] when the columns
    before [(i, j0)], in the order of the loops over [npp] longitudes, are
    done: those columns are filled, the others are as in [g]. *)
Definition fill_inv (g cur : ndarray) (npp i j0 : nat) : Prop :=
  shape cur = shape g ∧ wf_array cur ∧
  ∀ d i' j', d < depth_count g → i' < (shape g).1.2 → j' < (shape g).2 →
    get cur d i' j' =
    if decide ((i' < i ∧ j' < npp) ∨ (i' = i ∧ j' < j0))
    then filled_value g d i' j' else get g d i' j'.

(** A column of three depths with a hole between two numbers, and an array
    of two columns of which the second holds no number. *)
Definition holed_column : ndarray :=
  {| shape := (3, 1, 1); buf := [1; nan; 2]%float |}.
Definition empty_column : ndarray :=
  {| shape := (2, 1, 2); buf := [1; nan; 2; nan]%float |}.
(** An array of two columns with holes at the ends only. *)
Definition ragged_columns : ndarray :=
  {| shape := (4, 1, 2); buf := [nan; 1; 2; 3; 4; nan; nan; nan]%float |}.

(** All entries of an array are zero. *)
Definition all_zero (a : ndarray) : Prop := ∀ x, x ∈ buf a → x = 0%float.

(** The attributes [eta], [xi], [zeta] and [vel] of an object are four
    arrays of shape [sh], the first three of zeros. *)
Definition output_model (sh : nat * nat * nat) (o : CrustModel.t) : Prop :=
  ∃ e x z v,
    CrustModel.eta o = Some e ∧ CrustModel.xi o = Some x ∧
    CrustModel.zeta o = Some z ∧ CrustModel.vel o = Some v ∧
    shape e = sh ∧ shape x = sh ∧ shape z = sh ∧ shape v = sh ∧
    wf_array e ∧ wf_array x ∧ wf_array z ∧ wf_array v ∧
    all_zero e ∧ all_zero x ∧ all_zero z.

(** A source model of two latitudes and two longitudes with six samples. *)
Definition four_cells : list (list profile) :=
  [[ {| depth := [0; 10; 20]%float; vp := [5; 6; 6.5]%float |};
     {| depth := []; vp := [] |} ];
   [ {| depth := [1]%float; vp := [4.5]%float |};
     {| depth := [2; 3]%float; vp := [7; 8]%float |} ]].
Definition four_lat : list float := [40; 41]%float.
Definition four_lon : list float := [117; 118]%float.

(** Stand-ins for the numerical libraries, for running the pipeline on the
    examples: any four points count as non-coplanar, the interpolant is the
    depth of the query point, an axis goes from its lower bound straight to
    its upper bound, and the kernel has the three weights 1/4, 1/2, 1/4. *)
Definition any_four : point3 → point3 → point3 → point3 → bool :=
  λ _ _ _ _, true.
Definition depth_of_query : list point3 → list float → point3 → float :=
  λ _ _ q, q.1.1.
Definition two_ends : float → float → nat → nat → float :=
  λ lo hi _ k, match k with 0 => lo | _ => hi end.
Definition three_weights : float → list float :=
  λ _, [0.25; 0.5; 0.25]%float.

(** The objects of the examples, as [__init__] leaves them, and an object
    that holds a velocity grid. *)
Definition single_model : world := (init single_cell single_lat single_lon).2.
Definition four_model : world := (init four_cells four_lat four_lon).2.
Definition gridded_model : world :=
  {| self := CrustModel.set_vel
               {| shape := (4, 1, 2); buf := [2; 1; 2; 3; 4; 3; 4; 3]%float |}
               (CrustModel.loaded [] [] []);
     trace := [] |}.

(** The order of a float array in [np.searchsorted]: [<], with NaN sorted
    after every number. *)
Definition np_less (a b : float) : bool :=
  (a <? b)%float || (is_nan b && negb (is_nan a)).

(** A rank for the values of floats, as triples compared from the left: the
    class (negative infinity, negative, zero, positive, positive infinity,
    NaN), then the exponent, then the mantissa. *)
Definition sf_rank (f : spec_float) : Z * Z * Z :=
  match f with
  | S754_nan => (3, 0, 0)%Z
  | S754_infinity false => (2, 0, 0)%Z
  | S754_infinity true => (-2, 0, 0)%Z
  | S754_zero _ => (0, 0, 0)%Z
  | S754_finite false m e => (1, e, Z.pos m)%Z
  | S754_finite true m e => (-1, - e, Z.neg m)%Z
  end.
Definition rank_lt (k k' : Z * Z * Z) : Prop :=
  (k.1.1 < k'.1.1 ∨
   (k.1.1 = k'.1.1 ∧ (k.1.2 < k'.1.2 ∨ (k.1.2 = k'.1.2 ∧ k.2 < k'.2))))%Z.

(** The array is strictly increasing: every element is less than the next. *)
Fixpoint increasing {A} (less : A → A → bool) (array : list A) : bool :=
  match array with
  | x :: (y :: _) as rest => less x y && increasing less rest
  | _ => true
  end.

(** The output attributes of an object: none of [eta], [xi], [zeta], [vel]
    is assigned, or all four are. *)
Definition outputs_unset (o : CrustModel.t) : Prop :=
  CrustModel.eta o = None ∧ CrustModel.xi o = None ∧
  CrustModel.zeta o = None ∧ CrustModel.vel o = None.
Definition outputs_set (o : CrustModel.t) : Prop :=
  is_Some (CrustModel.eta o) ∧ is_Some (CrustModel.xi o) ∧
  is_Some (CrustModel.zeta o) ∧ is_Some (CrustModel.vel o).
Definition outputs_all_or_none (o : CrustModel.t) : Prop :=
  outputs_unset o ∨ outputs_set o.

(** ** [CrustModel.write] and the script *)

(** What the script can raise: an exception of the methods above, or an
    error of h5py. *)
Inductive io_exn : Type :=
  | Python (e : exn)
  | OSError      (* h5py: the file cannot be created *)
  | ValueError.  (* h5py: the file has a dataset of that name already *)

(** The script runs on an object and on the files on disk, each file a
    container of named datasets. *)
Record session : Type := {
  object : world;
  disk : gmap string (gmap string ndarray) }.

Definition IO (A : Type) : Type := session → (io_exn + A) * session.

Definition io_ret {A} (a : A) : IO A := λ s, (inr a, s).
Definition io_bind {A B} (c : IO A) (k : A → IO B) : IO B :=
  λ s, match c s with
       | (inr a, s') => k a s'
       | (inl e, s') => (inl e, s')
       end.
#[global] Instance IO_ret : MRet IO := @io_ret.
#[global] Instance IO_bind : MBind IO := λ A B k c, @io_bind A B c k.

(** A method call on the object. *)
Definition on_object {A} (c : M world A) : IO A :=
  λ s, match c (object s) with
       | (inr a, w) => (inr a, {| object := w; disk := disk s |})
       | (inl e, w) => (inl (Python e), {| object := w; disk := disk s |})
       end.

(** [f.create_dataset(name, data=data)] on the file opened as [f]: the
    dataset is added, unless the file has one of that name. *)
Definition create_dataset (f name : string) (data : ndarray) : IO unit :=
  λ s, let file := default ∅ (disk s !! f) in
       match file !! name with
       | None => (inr (), {| object := object s;
                             disk := <[f := <[name := data]> file]> (disk s) |})
       | Some _ => (inl ValueError, s)
       end.

Section Script.
(** Whether a file of a given name can be created is a matter of the
    directories and permissions of the machine. *)
Variable can_create : string → bool.
Variable non_coplanar : point3 → point3 → point3 → point3 → bool.
Variable linear_interpolant : list point3 → list float → point3 → float.
Variable axis_sample : float → float → nat → nat → float.
Variable gaussian_kernel1d : float → list float.

(** [h5py.File(fname, 'w')]: the file is created, and emptied if it was
    there. *)
Definition h5py_File (fname : string) : IO string :=
  λ s, if can_create fname
       then (inr fname, {| object := object s; disk := <[fname := ∅]> (disk s) |})
       else (inl OSError, s).

(** Leaving the [with] block closes the file, also on an exception; the
    datasets created until then are in it. *)
Definition write (fname : string) : IO unit :=
  f ← h5py_File fname;
  eta ← on_object (attr CrustModel.eta);
  create_dataset f "eta" eta;;
  xi ← on_object (attr CrustModel.xi);
  create_dataset f "xi" xi;;
  zeta ← on_object (attr CrustModel.zeta);
  create_dataset f "zeta" zeta;;
  vel ← on_object (attr CrustModel.vel);
  create_dataset f "vel" vel.


End Script.

(** The container that [write] leaves: the four datasets. *)
Definition output_file (eta xi zeta vel : ndarray) : gmap string ndarray :=
  <["vel" := vel]> (<["zeta" := zeta]> (<["xi" := xi]> (<["eta" := eta]> ∅))).

(** Sessions of the examples: an object that holds its output arrays and an
    empty disk, and an object fresh from [__init__] with a file on disk. *)
Definition gridded_session : session :=
  {| object := (griddata any_four depth_of_query two_ends
                  (0, 50)%float (30, 40)%float (100, 110)%float (2, 1, 2) four_model).2;
     disk := ∅ |}.
Definition fresh_session : session :=
  {| object := single_model;
     disk := {[ "model.h5" := {[ "vel" := ragged_columns ]} ]} |}.

(** * Properties *)

(** ** [find_adjacent_point] *)

Section SearchSortedFacts.
Context {A : Type} (less : A → A → bool).
(** The order is a strict weak order; of its laws the search needs this
    one: an element between two others is above the lesser or below the
    greater. *)
Hypothesis less_cotrans :
  ∀ x y z, less x z = true → less x y = true ∨ less y z = true.

Lemma sorted_tail x (l : list A) : sorted less (x :: l) = true → sorted less l = true.
Proof.
  destruct l as [|y l]; [done|]. cbn [sorted]. by intros [_ ?]%andb_prop.
Qed.

(** In a sorted array no element is less than an earlier one. *)
Lemma sorted_lookup (l : list A) i j x y :
  sorted less l = true → i ≤ j → l !! i = Some x → l !! j = Some y →
  less y x = true → i = j.
Proof.
  revert i j x y. induction l as [|a l IH]; intros i j x y Hs Hij Hi Hj Hlt; [done|].
  destruct i as [|i], j as [|j]; try lia.
  - (* the head against a later element *)
    exfalso. simpl in Hi. injection Hi as ->. simpl in Hj.
    clear IH Hij. revert x Hs j Hj Hlt.
    induction l as [|b l IHl]; intros x Hs j Hj Hlt; [done|].
    cbn [sorted] in Hs. apply andb_prop in Hs as [Hbx Hs].
    destruct j as [|j]; simpl in Hj.
    + injection Hj as ->. by rewrite Hlt in Hbx.
    + destruct (less_cotrans y b x Hlt) as [Hyb|Hbx']; [|by rewrite Hbx' in Hbx].
      eapply (IHl b); [|exact Hj|exact Hyb].
      exact Hs.
  - f_equal. eapply IH; eauto using sorted_tail. lia.
Qed.

(** The invariant of the search: left of [min_idx] every element is less
    than the key, from [max_idx] on none is. *)
Lemma binsearch_left_spec (arr : list A) (key : A) (min_idx max_idx : nat) :
  sorted less arr = true →
  min_idx ≤ max_idx ≤ length arr →
  (∀ i x, i < min_idx → arr !! i = Some x → less x key = true) →
  (∀ i x, max_idx ≤ i → arr !! i = Some x → less x key = false) →
  min_idx ≤ binsearch_left less arr key min_idx max_idx ≤ max_idx ∧
  (∀ i x, i < binsearch_left less arr key min_idx max_idx →
          arr !! i = Some x → less x key = true) ∧
  (∀ i x, binsearch_left less arr key min_idx max_idx ≤ i →
          arr !! i = Some x → less x key = false).
Proof.
  funelim (binsearch_left less arr key min_idx max_idx);
    intros Hs Hb Hlo Hhi; try clear Heqcall;
    pose proof (Nat.div_lt (max_idx - min_idx) 2) as Hhalf.
  - (* the bounds have met *)
    split; [lia|]. split; [done|].
    intros i x Hi Hx. apply (Hhi i x); [lia|done].
  - (* no element in the middle: the bounds would be outside the array *)
    exfalso.
    match goal with Hn : _ !! _ = None |- _ => apply lookup_ge_None in Hn end. lia.
  - (* the element in the middle is less than the key *)
    match goal with
    | IH : _ → _ → _ → _ → _, Hm : arr !! _ = Some mid_val, Hl : less mid_val key = true |- _ =>
        destruct IH as (Hr & Hbelow & Habove); [done|lia| |done|]
    end.
    + intros i x Hi Hx.
      destruct (less x key) eqn:Hxk; [done|]. exfalso.
      match goal with Hl : less mid_val key = true |- _ =>
        destruct (less_cotrans _ x _ Hl) as [Hmx|Hxk']; [|congruence] end.
      assert (i = min_idx + (max_idx - min_idx) / 2) as ->; [|congruence].
      eapply sorted_lookup; eauto. lia.
    + split; [lia|]. split; assumption.
  - (* it is not *)
    match goal with
    | IH : _ → _ → _ → _ → _, Hm : arr !! _ = Some mid_val, Hl : less mid_val key = false |- _ =>
        destruct IH as (Hr & Hbelow & Habove); [done|lia|done| |]
    end.
    + intros i x Hi Hx.
      destruct (less x key) eqn:Hxk; [|done]. exfalso.
      destruct (less_cotrans _ mid_val _ Hxk) as [Hxm|Hmk]; [|congruence].
      assert (min_idx + (max_idx - min_idx) / 2 = i) as <-; [|congruence].
      eapply sorted_lookup; eauto.
    + split; [lia|]. split; assumption.
Qed.

(** [np.searchsorted] on a sorted array: the number of elements that are
    less than the point, which is where they end. *)
Lemma searchsorted_spec (array : list A) (point : A) :
  sorted less array = true →
  searchsorted less array point ≤ length array ∧
  (∀ i x, i < searchsorted less array point → array !! i = Some x → less x point = true) ∧
  (∀ i x, searchsorted less array point ≤ i → array !! i = Some x → less x point = false).
Proof.
  intros Hs. unfold searchsorted.
  destruct (binsearch_left_spec array point 0 (length array)) as (? & ? & ?);
    [done|lia| | |].
  - intros; lia.
  - intros i x Hi Hx. apply lookup_lt_Some in Hx. lia.
  - split; [lia|]. split; assumption.
Qed.

(** C10. For a sorted array and a query point, [find_adjacent_point]
    returns the pair of bracketing indices given by the insertion index
    of [np.searchsorted]: the left one is [None] exactly when that index
    is 0, which is when the point sorts at or before the first element,
    and is the index minus one otherwise; the right one is [None] exactly
    when the index is the array's length, which is when the point sorts
    after every element, and is the index otherwise. The index is where
    the elements less than the point end. *)
Theorem find_adjacent_point_brackets (point : A) (array : list A) :
  sorted less array = true →
  ∃ index : nat,
    index = searchsorted less array point ∧
    index ≤ length array ∧
    find_adjacent_point less point array =
      (if decide (index = 0) then None else Some (Z.of_nat index - 1)%Z,
       if decide (index = length array) then None else Some (Z.of_nat index)) ∧
    (index = 0 ↔ ∀ x, array !! 0 = Some x → less x point = false) ∧
    (index = length array ↔ ∀ x, x ∈ array → less x point = true) ∧
    (∀ i x, array !! i = Some x → (i < index ↔ less x point = true)).
Proof.
  intros Hs. destruct (searchsorted_spec array point Hs) as (Hle & Hbelow & Habove).
  exists (searchsorted less array point).
  split; [done|]. split; [done|]. split; [|split; [|split]].
  - unfold find_adjacent_point, where_none. f_equal.
    + destruct (Z.eqb_spec (Z.of_nat (searchsorted less array point)) 0);
        case_decide; try done; lia.
    + destruct (Z.eqb_spec (Z.of_nat (searchsorted less array point))
                           (Z.of_nat (length array)));
        case_decide; try done; lia.
  - split.
    + intros Hz x Hx. apply (Habove 0); [lia|done].
    + intros Hfirst.
      destruct (searchsorted less array point) as [|n] eqn:Hn; [done|]. exfalso.
      destruct (lookup_lt_is_Some_2 array 0) as [x Hx]; [lia|].
      specialize (Hbelow 0 x ltac:(lia) Hx). specialize (Hfirst x Hx). congruence.
  - split.
    + intros Hlen x [i Hx]%list_elem_of_lookup.
      apply (Hbelow i); [|done]. apply lookup_lt_Some in Hx. lia.
    + intros Hall.
      destruct (decide (searchsorted less array point = length array)) as [|Hne]; [done|].
      exfalso.
      destruct (lookup_lt_is_Some_2 array (searchsorted less array point)) as [x Hx]; [lia|].
      specialize (Habove (searchsorted less array point) x ltac:(lia) Hx).
      rewrite Hall in Habove; [done|]. apply list_elem_of_lookup. eauto.
  - intros i x Hx. split.
    + intros Hi. by apply (Hbelow i).
    + intros Hlt. destruct (decide (i < searchsorted less array point)); [done|].
      rewrite (Habove i x) in Hlt; [done|lia|done].
Qed.
End SearchSortedFacts.

(** The order of floats: [np_less] compares the ranks. *)
Lemma sf_is_nan (f : spec_float) :
  negb (SFeqb f f) = match f with S754_nan => true | _ => false end.
Proof.
  unfold SFeqb. destruct f as [s|[]| |[] m e]; simpl; try done;
    by rewrite Z.compare_refl, Pos.compare_cont_refl.
Qed.

Lemma np_less_rank (a b : float) :
  np_less a b = true ↔ rank_lt (sf_rank (Prim2SF a)) (sf_rank (Prim2SF b)).
Proof.
  unfold np_less, is_nan. rewrite FloatAxioms.ltb_spec, !FloatAxioms.eqb_spec, !sf_is_nan.
  generalize (Prim2SF a) (Prim2SF b). intros sa sb. unfold SFltb, rank_lt.
  destruct sa as [s1|[]| |[] m1 e1], sb as [s2|[]| |[] m2 e2]; simpl;
    try (split; [intros; try done; lia | intros; try done; try lia]).
  - (* two negative numbers *)
    change (Pos.compare_cont Eq m1 m2) with (m1 ?= m2)%positive.
    destruct (Z.compare_spec e1 e2), (Pos.compare_spec m1 m2); simpl;
      split; intros; try done; try lia.
  - (* two positive numbers *)
    change (Pos.compare_cont Eq m1 m2) with (m1 ?= m2)%positive.
    destruct (Z.compare_spec e1 e2), (Pos.compare_spec m1 m2); simpl;
      split; intros; try done; try lia.
Qed.

(** [np_less] is a strict weak order. *)
Lemma np_less_cotrans (x y z : float) :
  np_less x z = true → np_less x y = true ∨ np_less y z = true.
Proof.
  rewrite !np_less_rank.
  generalize (sf_rank (Prim2SF x)) (sf_rank (Prim2SF y)) (sf_rank (Prim2SF z)).
  unfold rank_lt. intros [[a1 a2] a3] [[b1 b2] b3] [[c1 c2] c3]. simpl. lia.
Qed.

Lemma find_adjacent_point_brackets_witness :
  sorted np_less [1.5; 3; 5]%float = true ∧
  ∃ index : nat,
    index = searchsorted np_less [1.5; 3; 5]%float 4%float ∧
    index ≤ 3 ∧
    find_adjacent_point np_less 4%float [1.5; 3; 5]%float =
      (if decide (index = 0) then None else Some (Z.of_nat index - 1)%Z,
       if decide (index = 3) then None else Some (Z.of_nat index)) ∧
    (index = 0 ↔ ∀ x, [1.5; 3; 5]%float !! 0 = Some x → np_less x 4%float = false) ∧
    (index = 3 ↔ ∀ x, x ∈ [1.5; 3; 5]%float → np_less x 4%float = true) ∧
    (∀ i x, [1.5; 3; 5]%float !! i = Some x → (i < index ↔ np_less x 4%float = true)).
Proof.
  split; [reflexivity|].
  apply (find_adjacent_point_brackets np_less np_less_cotrans 4%float [1.5; 3; 5]%float).
  reflexivity.
Defined.

Example find_adjacent_point_ex :
  find_adjacent_point np_less 4%float [1.5; 3; 5]%float = (Some 1%Z, Some 2%Z) ∧
  find_adjacent_point np_less 0%float [1.5; 3; 5]%float = (None, Some 0%Z) ∧
  find_adjacent_point np_less 3%float [1.5; 3; 5]%float = (Some 0%Z, Some 1%Z) ∧
  find_adjacent_point np_less 9%float [1.5; 3; 5]%float = (Some 2%Z, None) ∧
  find_adjacent_point np_less nan [1.5; 3; 5]%float = (Some 2%Z, None) ∧
  find_adjacent_points np_less [4; 0; 9]%float [1.5; 3; 5]%float =
    ([Some 1%Z; None; Some 2%Z], [Some 2%Z; Some 0%Z; None]).
Proof. repeat split. Qed.

(** ** Running computations *)

Lemma run_bind {S A B} (c : M S A) (k : A → M S B) (s : S) :
  (c ≫= k) s = match c s with
               | (inr a, s') => k a s'
               | (inl e, s') => (inl e, s')
               end.
Proof. reflexivity. Qed.

Lemma for_each_cons {S A} (x : A) (l : list A) (body : A → M S unit) (s : S) :
  for_each (x :: l) body s = match body x s with
                             | (inr _, s') => for_each l body s'
                             | (inl e, s') => (inl e, s')
                             end.
Proof. reflexivity. Qed.

Lemma enumerate_from_lookup {A} (n : nat) (l : list A) (k : nat) :
  enumerate_from n l !! k = (λ x, (n + k, x)) <$> l !! k.
Proof.
  revert n k. induction l as [|x l IH]; intros n k; [done|].
  destruct k as [|k]; simpl.
  - by rewrite Nat.add_0_r.
  - rewrite IH. by replace (S n + k) with (n + S k) by lia.
Qed.

Lemma enumerate_from_elem {A} (n : nat) (l : list A) (k : nat) (x : A) :
  (k, x) ∈ enumerate_from n l ↔ n ≤ k ∧ l !! (k - n) = Some x.
Proof.
  rewrite list_elem_of_lookup. split.
  - intros [p Hp]. rewrite enumerate_from_lookup in Hp.
    destruct (l !! p) as [y|] eqn:Hy; [|done]. simpl in Hp.
    injection Hp as <- <-. split; [lia|]. by replace (n + p - n) with p by lia.
  - intros [Hn Hx]. exists (k - n). rewrite enumerate_from_lookup, Hx. simpl.
    do 2 f_equal. lia.
Qed.

Lemma run_ret {S A} (a : A) (s : S) : (mret a : M S A) s = (inr a, s).
Proof. reflexivity. Qed.

Lemma run_emit (e : event) (w : world) :
  emit e w = (inr (), {| self := self w; trace := trace w ++ [e] |}).
Proof. reflexivity. Qed.

Lemma run_assign (f : CrustModel.t → CrustModel.t) (w : world) :
  assign f w = (inr (), {| self := f (self w); trace := trace w |}).
Proof. reflexivity. Qed.

Lemma run_field {A} (f : CrustModel.t → A) (w : world) :
  field f w = (inr (f (self w)), w).
Proof. reflexivity. Qed.

Lemma run_attr {A} (f : CrustModel.t → option A) (w : world) (a : A) :
  f (self w) = Some a → attr f w = (inr a, w).
Proof. unfold attr. by intros ->. Qed.

Lemma run_subscript {S A} (l : list A) (i : nat) (x : A) (s : S) :
  l !! i = Some x → subscript l i s = (inr x, s).
Proof. unfold subscript. by intros ->. Qed.

Lemma run_np_vstack (a : list row) (r : row) (w : world) :
  np_vstack a r w =
  (inr (a ++ [r]), {| self := self w; trace := trace w ++ [Alloc (S (length a))] |}).
Proof. reflexivity. Qed.

(** ** [model2points] *)

Lemma stacked_nil w pts tr : stacked w pts tr [] = with_points w pts tr.
Proof. unfold stacked. simpl. by rewrite !app_nil_r. Qed.

Lemma stacked_app w pts tr rs1 rs2 :
  stacked w (pts ++ rs1) (tr ++ map Alloc (seq (S (length pts)) (length rs1))) rs2 =
  stacked w pts tr (rs1 ++ rs2).
Proof.
  unfold stacked. f_equal; [by rewrite app_assoc|].
  rewrite <- !app_assoc. f_equal. rewrite <- map_app. f_equal.
  rewrite !length_app, seq_app. simpl. do 2 f_equal.
Qed.

(** The innermost loop stacks the rows of one cell. *)
Lemma model2points_cell (lat lon : float) (all_vp deps : list float) (k0 : nat) w pts tr :
  k0 + length deps ≤ length all_vp →
  for_each (enumerate_from k0 deps) (λ '(k, dep),
      points ← attr CrustModel.points;
      v ← subscript all_vp k;
      stacked ← np_vstack points (dep, lat, lon, v);
      assign (CrustModel.set_points stacked)) (with_points w pts tr) =
  (inr (), stacked w pts tr (zip_with (λ dep v, (dep, lat, lon, v)) deps (drop k0 all_vp))).
Proof.
  revert k0 pts tr. induction deps as [|dep deps IH]; intros k0 pts tr Hlen.
  - simpl. by rewrite stacked_nil.
  - simpl in Hlen. destruct (lookup_lt_is_Some_2 all_vp k0) as [v Hv]; [lia|].
    cbn [enumerate_from]. rewrite for_each_cons.
    rewrite run_bind, (run_attr _ _ pts) by done.
    rewrite run_bind, (run_subscript _ _ v) by done.
    rewrite run_bind, run_np_vstack, run_assign.
    change ({| self := _; trace := _ |})
      with (with_points w (pts ++ [(dep, lat, lon, v)]) (tr ++ [Alloc (S (length pts))])).
    rewrite IH by lia.
    rewrite (drop_S all_vp v k0 Hv). cbn [zip_with].
    f_equal.
    replace (tr ++ [Alloc (S (length pts))])
      with (tr ++ map Alloc (seq (S (length pts)) (length [(dep, lat, lon, v)]))) by done.
    by rewrite stacked_app.
Qed.

Lemma wf_source_has_cells data lat lon :
  wf_source data lat lon = true → has_cells data (length lat) (length lon).
Proof.
  unfold wf_source. intros Hwf i j Hi Hj.
  rewrite forallb_forall in Hwf. specialize (Hwf i). rewrite forallb_forall in Hwf.
  specialize (Hwf ltac:(apply in_seq; lia) j ltac:(apply in_seq; lia)).
  destruct (cell_at data i j) as [cell|]; [|done].
  exists cell. split; [done|]. by apply Nat.leb_le.
Qed.

(** The middle loop stacks the rows of the cells of one latitude. *)
Lemma model2points_lons (i : nat) (la : float) (lons : list float) (j0 n_lat n_lon : nat)
    w pts tr :
  has_cells (CrustModel.mod_data (self w)) n_lat n_lon →
  i < n_lat → j0 + length lons ≤ n_lon →
  for_each (enumerate_from j0 lons) (λ '(j, lon),
      mod_data ← field CrustModel.mod_data;
      data_i ← subscript mod_data i;
      cell ← subscript data_i j;
      let all_dep := depth cell in
      let all_vp := vp cell in
      for_each (enumerate all_dep) (λ '(k, dep),
        points ← attr CrustModel.points;
        v ← subscript all_vp k;
        stacked ← np_vstack points (dep, la, lon, v);
        assign (CrustModel.set_points stacked))) (with_points w pts tr) =
  (inr (), stacked w pts tr
             (rows_of_lons (CrustModel.mod_data (self w)) i la (enumerate_from j0 lons))).
Proof.
  intros Hcells Hi. revert j0 pts tr.
  induction lons as [|lo lons IH]; intros j0 pts tr Hj.
  - simpl. by rewrite stacked_nil.
  - simpl in Hj. destruct (Hcells i j0) as (cell & Hcell & Hlen); [done|lia|].
    unfold cell_at in Hcell.
    destruct (CrustModel.mod_data (self w) !! i) as [data_i|] eqn:Hdata; [|done].
    simpl in Hcell.
    cbn [enumerate_from]. rewrite for_each_cons.
    rewrite run_bind, run_field.
    rewrite run_bind, (run_subscript _ _ data_i) by done.
    rewrite run_bind, (run_subscript _ _ cell) by done.
    cbv zeta. unfold enumerate. rewrite model2points_cell by (simpl; lia).
    unfold stacked at 1. rewrite IH by lia. rewrite stacked_app.
    do 2 f_equal. unfold rows_of_lons. cbn [map concat].
    unfold cell_at. rewrite Hdata. simpl. by rewrite Hcell.
Qed.

(** The outer loop stacks the rows of all latitudes. *)
Lemma model2points_lats (lats : list float) (i0 n_lat : nat) w pts tr :
  has_cells (CrustModel.mod_data (self w)) n_lat (length (CrustModel.mod_lon (self w))) →
  i0 + length lats ≤ n_lat →
  for_each (enumerate_from i0 lats) (λ '(i, lat),
      mod_lon ← field CrustModel.mod_lon;
      for_each (enumerate mod_lon) (λ '(j, lon),
        mod_data ← field CrustModel.mod_data;
        data_i ← subscript mod_data i;
        cell ← subscript data_i j;
        let all_dep := depth cell in
        let all_vp := vp cell in
        for_each (enumerate all_dep) (λ '(k, dep),
          points ← attr CrustModel.points;
          v ← subscript all_vp k;
          stacked ← np_vstack points (dep, lat, lon, v);
          assign (CrustModel.set_points stacked)))) (with_points w pts tr) =
  (inr (), stacked w pts tr
             (rows_of_lats (CrustModel.mod_data (self w)) (CrustModel.mod_lon (self w))
                (enumerate_from i0 lats))).
Proof.
  intros Hcells. revert i0 pts tr.
  induction lats as [|la lats IH]; intros i0 pts tr Hi.
  - simpl. by rewrite stacked_nil.
  - simpl in Hi. cbn [enumerate_from]. rewrite for_each_cons.
    rewrite run_bind, run_field.
    cbn [with_points self CrustModel.mod_lon CrustModel.set_points].
    unfold enumerate.
    rewrite (model2points_lons i0 la _ 0 n_lat (length (CrustModel.mod_lon (self w))))
      by (done || simpl; lia).
    unfold stacked at 1. rewrite IH by lia. rewrite stacked_app.
    reflexivity.
Qed.

(** What [model2points] does to a well-formed source model: the point
    container becomes the flattening of the model, built by one allocation
    for the empty container and one for each row. *)
Lemma model2points_run (w : world) :
  wf_source (CrustModel.mod_data (self w)) (CrustModel.mod_lat (self w))
            (CrustModel.mod_lon (self w)) = true →
  model2points w =
  (inr (), with_points w
             (flattened (CrustModel.mod_data (self w)) (CrustModel.mod_lat (self w))
                (CrustModel.mod_lon (self w)))
             (trace w ++ map Alloc
                (seq 0 (S (length (flattened (CrustModel.mod_data (self w))
                                     (CrustModel.mod_lat (self w))
                                     (CrustModel.mod_lon (self w)))))))).
Proof.
  intros Hwf%wf_source_has_cells. unfold model2points.
  rewrite run_bind. unfold np_empty_rows. rewrite run_bind, run_emit, run_ret.
  rewrite run_bind, run_assign.
  rewrite run_bind, run_field.
  cbn [self trace CrustModel.mod_lat CrustModel.set_points].
  change ({| self := _; trace := _ |}) with (with_points w [] (trace w ++ [Alloc 0])).
  unfold enumerate.
  rewrite (model2points_lats _ 0 (length (CrustModel.mod_lat (self w)))) by (done || simpl; lia).
  unfold stacked. simpl. rewrite <- app_assoc. reflexivity.
Qed.

Lemma elem_of_concat_map {A B} (f : A → list B) (l : list A) (y : B) :
  y ∈ concat (map f l) ↔ ∃ x, x ∈ l ∧ y ∈ f x.
Proof.
  rewrite list_elem_of_In, in_concat. split.
  - intros (ys & Hys & Hy). apply in_map_iff in Hys as (x & <- & Hx).
    exists x. by rewrite !list_elem_of_In.
  - intros (x & Hx & Hy). exists (f x). rewrite in_map_iff.
    split; [|by apply list_elem_of_In]. exists x. by rewrite <- list_elem_of_In.
Qed.

Lemma rows_of_lons_length data (i : nat) (la : float) (lons : list float) (j0 n_lat n_lon : nat) :
  has_cells data n_lat n_lon → i < n_lat → j0 + length lons ≤ n_lon →
  length (rows_of_lons data i la (enumerate_from j0 lons)) =
  sum_list (map (λ j, match cell_at data i j with
                      | Some cell => length (depth cell)
                      | None => 0
                      end) (seq j0 (length lons))).
Proof.
  intros Hcells Hi. revert j0. induction lons as [|lo lons IH]; intros j0 Hj; [done|].
  simpl in Hj. unfold rows_of_lons in *. cbn [enumerate_from map concat length seq].
  rewrite length_app, IH by lia. simpl. f_equal.
  destruct (Hcells i j0) as (cell & -> & Hlen); [done|lia|].
  unfold cell_rows. by rewrite length_zip_with_l.
Qed.

Lemma rows_of_lats_length data (lon lats : list float) (i0 n_lat : nat) :
  has_cells data n_lat (length lon) → i0 + length lats ≤ n_lat →
  length (rows_of_lats data lon (enumerate_from i0 lats)) =
  sum_list (map (λ i,
    sum_list (map (λ j, match cell_at data i j with
                        | Some cell => length (depth cell)
                        | None => 0
                        end) (seq 0 (length lon)))) (seq i0 (length lats))).
Proof.
  intros Hcells. revert i0. induction lats as [|la lats IH]; intros i0 Hi; [done|].
  simpl in Hi. unfold rows_of_lats in *. cbn [enumerate_from map concat length seq].
  rewrite length_app, IH by lia. simpl. f_equal.
  unfold enumerate. by rewrite (rows_of_lons_length _ _ _ _ 0 n_lat (length lon)) by (done || simpl; lia).
Qed.

(** The size of the flattening is the sum of the profile lengths. *)
Lemma flattened_length data lat lon :
  has_cells data (length lat) (length lon) →
  length (flattened data lat lon) = total_samples data lat lon.
Proof.
  intros Hcells.
  apply (rows_of_lats_length data lon lat 0 (length lat)); [done|simpl; lia].
Qed.

(** The rows of the flattening are the tuples of the samples, and nothing
    else. *)
Lemma flattened_elem data lat lon (r : row) :
  r ∈ flattened data lat lon ↔
  ∃ i j k la lo cell dep v,
    lat !! i = Some la ∧ lon !! j = Some lo ∧ cell_at data i j = Some cell ∧
    depth cell !! k = Some dep ∧ vp cell !! k = Some v ∧ r = (dep, la, lo, v).
Proof.
  unfold flattened. rewrite elem_of_concat_map. split.
  - intros ([i la] & Hi & Hr). rewrite elem_of_concat_map in Hr.
    destruct Hr as ([j lo] & Hj & Hr).
    apply enumerate_from_elem in Hi as [_ Hi]. apply enumerate_from_elem in Hj as [_ Hj].
    rewrite Nat.sub_0_r in Hi, Hj.
    destruct (cell_at data i j) as [cell|] eqn:Hcell; [|by apply elem_of_nil in Hr].
    apply list_elem_of_lookup in Hr as [k Hk].
    apply lookup_zip_with_Some in Hk as (dep & v & -> & Hdep & Hv).
    by exists i, j, k, la, lo, cell, dep, v.
  - intros (i & j & k & la & lo & cell & dep & v & Hi & Hj & Hcell & Hdep & Hv & ->).
    exists (i, la). split.
    { apply enumerate_from_elem. rewrite Nat.sub_0_r. split; [lia|done]. }
    rewrite elem_of_concat_map. exists (j, lo). split.
    { apply enumerate_from_elem. rewrite Nat.sub_0_r. split; [lia|done]. }
    rewrite Hcell. apply list_elem_of_lookup. exists k.
    apply lookup_zip_with_Some. by exists dep, v.
Qed.

(** C3. For a source model (a cell for every pair of a latitude and a
    longitude index, each cell with a velocity for each depth),
    [model2points] produces the point cloud of the model: its size is the sum
    of the profile lengths over all cells, its rows are exactly the tuples
    [(depth[i][j][k], lat[i], lon[j], vp[i][j][k])] of the samples, cell after
    cell, and a cell with an empty profile contributes no row. *)
Theorem model2points_flattens (w : world) :
  let data := CrustModel.mod_data (self w) in
  let lat := CrustModel.mod_lat (self w) in
  let lon := CrustModel.mod_lon (self w) in
  wf_source data lat lon = true →
  ∃ pts,
    (model2points w).1 = inr () ∧
    CrustModel.points (self (model2points w).2) = Some pts ∧
    pts = flattened data lat lon ∧
    length pts = total_samples data lat lon ∧
    (∀ r, r ∈ pts ↔
          ∃ i j k la lo cell dep v,
            lat !! i = Some la ∧ lon !! j = Some lo ∧ cell_at data i j = Some cell ∧
            depth cell !! k = Some dep ∧ vp cell !! k = Some v ∧ r = (dep, la, lo, v)) ∧
    (∀ la lo cell, depth cell = [] → cell_rows la lo cell = []).
Proof.
  intros data lat lon Hwf. exists (flattened data lat lon).
  rewrite (model2points_run w Hwf). cbn [fst snd with_points self CrustModel.points CrustModel.set_points].
  split; [done|]. split; [done|]. split; [done|].
  split; [by apply flattened_length, wf_source_has_cells|].
  split; [apply flattened_elem|].
  intros la lo cell Hnil. unfold cell_rows. by rewrite Hnil.
Qed.

Lemma model2points_flattens_witness :
  wf_source single_cell single_lat single_lon = true ∧
  ∃ pts,
    (model2points single_loaded).1 = inr () ∧
    CrustModel.points (self (model2points single_loaded).2) = Some pts ∧
    pts = flattened single_cell single_lat single_lon ∧
    length pts = total_samples single_cell single_lat single_lon ∧
    (∀ r, r ∈ pts ↔
          ∃ i j k la lo cell dep v,
            single_lat !! i = Some la ∧ single_lon !! j = Some lo ∧
            cell_at single_cell i j = Some cell ∧
            depth cell !! k = Some dep ∧ vp cell !! k = Some v ∧ r = (dep, la, lo, v)) ∧
    (∀ la lo cell, depth cell = [] → cell_rows la lo cell = []).
Proof.
  split; [reflexivity|].
  apply (model2points_flattens single_loaded). reflexivity.
Defined.

(** The boundary scenario has three points. *)
Example single_cell_points :
  CrustModel.points (self (init single_cell single_lat single_lon).2) =
  Some [(0, 40, 117, 5); (10, 40, 117, 6); (20, 40, 117, 6.5)]%float.
Proof. reflexivity. Qed.

(** C8, as the claim has it, fails: the run on the boundary scenario's three
    samples allocates four containers, of 0, 1, 2 and 3 rows, and not one
    container of 3 rows. *)
Lemma model2points_single_allocation_counterexample :
  wf_source single_cell single_lat single_lon = true ∧
  total_samples single_cell single_lat single_lon = 3 ∧
  (model2points single_loaded).1 = inr () ∧
  allocations (trace (model2points single_loaded).2) = [0; 1; 2; 3] ∧
  allocations (trace (model2points single_loaded).2) ≠
    [total_samples single_cell single_lat single_lon].
Proof. repeat split. discriminate. Qed.

Lemma allocations_Alloc (ns : list nat) : allocations (map Alloc ns) = ns.
Proof.
  induction ns as [|n ns IH]; [done|].
  change (allocations (map Alloc (n :: ns))) with (n :: allocations (map Alloc ns)).
  by rewrite IH.
Qed.

Lemma sum_list_seq (n : nat) : 2 * sum_list (seq 0 (S n)) = n * (n + 1).
Proof.
  induction n as [|n IH]; [done|].
  rewrite seq_S, sum_list_with_app. simpl in *. lia.
Qed.

(** C8, amended. [model2points] starts from an empty container and grows it
    one row at a time: for a source model of [n] samples it allocates [n + 1]
    containers, of 0, 1, ..., [n] rows, which are [n (n + 1) / 2] rows in
    all. *)
Theorem model2points_allocations (w : world) :
  let data := CrustModel.mod_data (self w) in
  let lat := CrustModel.mod_lat (self w) in
  let lon := CrustModel.mod_lon (self w) in
  let n := total_samples data lat lon in
  wf_source data lat lon = true →
  ∃ w',
    model2points w = (inr (), w') ∧
    trace w' = trace w ++ map Alloc (seq 0 (S n)) ∧
    allocations (trace w') = allocations (trace w) ++ seq 0 (S n) ∧
    length (seq 0 (S n)) = n + 1 ∧
    2 * sum_list (seq 0 (S n)) = n * (n + 1).
Proof.
  intros data lat lon n Hwf. eexists. split; [apply (model2points_run w Hwf)|].
  cbn [with_points trace].
  rewrite flattened_length by by apply wf_source_has_cells. fold data lat lon n.
  split; [done|]. split.
  - unfold allocations. rewrite omap_app. f_equal. apply allocations_Alloc.
  - split; [rewrite length_seq; lia|apply sum_list_seq].
Qed.

Lemma model2points_allocations_witness :
  wf_source single_cell single_lat single_lon = true ∧
  ∃ w',
    model2points single_loaded = (inr (), w') ∧
    trace w' = map Alloc (seq 0 4) ∧
    allocations (trace w') = seq 0 4 ∧
    length (seq 0 4) = 3 + 1 ∧
    2 * sum_list (seq 0 4) = 3 * (3 + 1).
Proof.
  split; [reflexivity|].
  apply (model2points_allocations single_loaded). reflexivity.
Defined.

(** ** Arrays *)

Lemma offset_lt (sh : nat * nat * nat) (d i j : nat) :
  d < sh.1.1 → i < sh.1.2 → j < sh.2 → offset sh d i j < size sh.
Proof.
  destruct sh as [[n0 n1] n2]. simpl. intros Hd Hi Hj.
  assert (d * n1 + i + 1 ≤ n0 * n1) as Hrow by nia.
  assert ((d * n1 + i + 1) * n2 ≤ n0 * n1 * n2) by (apply Nat.mul_le_mono_r; lia).
  lia.
Qed.

Lemma mul_add_inj (n a b a' b' : nat) :
  b < n → b' < n → a * n + b = a' * n + b' → a = a' ∧ b = b'.
Proof.
  intros Hb Hb' Heq.
  destruct (lt_eq_lt_dec a a') as [[Hlt| ->]|Hlt]; [exfalso| lia |exfalso].
  - assert ((a + 1) * n ≤ a' * n) by (apply Nat.mul_le_mono_r; lia). lia.
  - assert ((a' + 1) * n ≤ a * n) by (apply Nat.mul_le_mono_r; lia). lia.
Qed.

Lemma offset_inj (sh : nat * nat * nat) (d i j d' i' j' : nat) :
  i < sh.1.2 → j < sh.2 → i' < sh.1.2 → j' < sh.2 →
  offset sh d i j = offset sh d' i' j' → d = d' ∧ i = i' ∧ j = j'.
Proof.
  destruct sh as [[n0 n1] n2]. simpl. intros Hi Hj Hi' Hj' Heq.
  apply mul_add_inj in Heq as [Hrow ->]; [|done..].
  apply mul_add_inj in Hrow as [-> ->]; done.
Qed.

Lemma foldl_insert_length (f : nat → nat) (v : float) (ds : list nat) (b : list float) :
  length (foldl (λ b d, <[f d := v]> b) b ds) = length b.
Proof.
  revert b. induction ds as [|d ds IH]; intros b; simpl; [done|].
  by rewrite IH, length_insert.
Qed.

Lemma foldl_insert_lookup (f : nat → nat) (v : float) (ds : list nat) (b : list float) (k : nat) :
  k < length b →
  foldl (λ b d, <[f d := v]> b) b ds !!! k =
  if decide (k ∈ map f ds) then v else b !!! k.
Proof.
  revert b. induction ds as [|d ds IH]; intros b Hk; simpl.
  - done.
  - rewrite IH by by rewrite length_insert.
    destruct (decide (k ∈ map f ds)) as [Hin|Hno].
    + rewrite decide_True; [done|]. by right.
    + rewrite list_lookup_total_insert. case_decide as Hd.
      * rewrite decide_True; [done|]. destruct Hd as [<- _]. by left.
      * rewrite decide_False; [done|]. intros [->|Hin]%elem_of_cons; [|done].
        apply Hd. done.
Qed.

Lemma assign_slice_wf (a : ndarray) (i j lo hi : nat) (v : float) :
  wf_array a → wf_array (assign_slice a i j lo hi v).
Proof. unfold wf_array, assign_slice. simpl. by rewrite foldl_insert_length. Qed.

(** Reading an array after a slice assignment: the entries of the slice hold
    the assigned value, the others are as before. *)
Lemma get_assign_slice (a : ndarray) (i j lo hi : nat) (v : float) (d' i' j' : nat) :
  wf_array a →
  i < (shape a).1.2 → j < (shape a).2 →
  d' < (shape a).1.1 → i' < (shape a).1.2 → j' < (shape a).2 →
  get (assign_slice a i j lo hi v) d' i' j' =
  if decide (i' = i ∧ j' = j ∧ lo ≤ d' < hi) then v else get a d' i' j'.
Proof.
  intros Hwf Hi Hj Hd' Hi' Hj'. unfold get, assign_slice. simpl.
  rewrite foldl_insert_lookup by (rewrite Hwf; by apply offset_lt).
  destruct (decide (i' = i ∧ j' = j ∧ lo ≤ d' < hi)) as [(-> & -> & Hd)|Hno].
  - rewrite decide_True; [done|]. apply list_elem_of_fmap. exists d'. split; [done|].
    apply elem_of_seq. lia.
  - rewrite decide_False; [done|]. intros (d & Heq & Hd%elem_of_seq)%list_elem_of_fmap.
    apply offset_inj in Heq as (-> & -> & ->); [|done..]. apply Hno. lia.
Qed.

(** Assigning to an empty slice changes nothing. *)
Lemma assign_slice_empty (a : ndarray) (i j lo hi : nat) (v : float) :
  hi ≤ lo → assign_slice a i j lo hi v = a.
Proof.
  intros Hle. unfold assign_slice. replace (hi - lo) with 0 by lia.
  by destruct a.
Qed.

Lemma column_lookup (a : ndarray) (i j d : nat) :
  d < depth_count a → column a i j !! d = Some (get a d i j).
Proof.
  intros Hd. unfold column. rewrite list_lookup_fmap, lookup_seq_lt by done. done.
Qed.

Lemma column_length (a : ndarray) (i j : nat) : length (column a i j) = depth_count a.
Proof. unfold column. by rewrite length_map, length_seq. Qed.

(** ** [np.where] on a mask *)

Lemma where_from_cons (n : nat) (b : bool) (mask : list bool) :
  where_from n (b :: mask) =
  if b then n :: where_from (S n) mask else where_from (S n) mask.
Proof. by destruct b. Qed.

Lemma where_from_elem (n : nat) (mask : list bool) (k : nat) :
  k ∈ where_from n mask ↔ n ≤ k ∧ mask !! (k - n) = Some true.
Proof.
  unfold where_from. rewrite list_elem_of_omap. split.
  - intros ([k' b] & Hin%enumerate_from_elem & Hb). destruct b; [|done].
    by injection Hb as ->.
  - intros [Hn Hk]. exists (k, true). split; [|done]. by apply enumerate_from_elem.
Qed.

(** The first position of the mask that holds [True]. *)
Lemma where_from_first (n : nat) (mask : list bool) (f : nat) :
  where_from n mask !! 0 = Some f →
  n ≤ f ∧ mask !! (f - n) = Some true ∧
  ∀ k, n ≤ k → k < f → mask !! (k - n) = Some false.
Proof.
  revert n. induction mask as [|b mask IH]; intros n; [done|].
  rewrite where_from_cons. destruct b.
  - simpl. intros [= <-]. rewrite Nat.sub_diag. split; [done|]. split; [done|]. lia.
  - intros (Hn & Hf & Hbefore)%IH. split; [lia|]. split.
    + by replace (f - n) with (S (f - S n)) by lia.
    + intros k Hk Hkf. destruct (decide (k = n)) as [->|Hne].
      * by rewrite Nat.sub_diag.
      * replace (k - n) with (S (k - S n)) by lia. apply Hbefore; lia.
Qed.

(** The last position of the mask that holds [True]. *)
Lemma where_from_last (n : nat) (mask : list bool) (l : nat) :
  last (where_from n mask) = Some l →
  n ≤ l ∧ mask !! (l - n) = Some true ∧
  ∀ k, l < k → mask !! (k - n) ≠ Some true.
Proof.
  intros Hlast.
  assert (l ∈ where_from n mask) as Hin.
  { apply last_Some in Hlast as [l' ->]. apply elem_of_app. right. by left. }
  apply where_from_elem in Hin as [Hn Hl]. split; [done|]. split; [done|].
  revert n l Hlast Hn Hl. induction mask as [|b mask IH]; intros n l Hlast Hn Hl k Hk; [done|].
  rewrite where_from_cons in Hlast.
  destruct (where_from (S n) mask) as [|x rest] eqn:Hrest.
  - (* no later position holds True *)
    replace (k - n) with (S (k - S n)) by lia. simpl. intros Htrue.
    assert (k ∈ where_from (S n) mask) as Hin by (apply where_from_elem; split; [lia|done]).
    rewrite Hrest in Hin. by apply elem_of_nil in Hin.
  - assert (last (x :: rest) = Some l) as Hlast'.
    { destruct b; [|done]. by rewrite last_cons_cons in Hlast. }
    assert (l ∈ where_from (S n) mask) as Hin.
    { rewrite Hrest. apply last_Some in Hlast' as [l' ->]. apply elem_of_app. right. by left. }
    apply where_from_elem in Hin as [Hn' Hl'].
    replace (k - n) with (S (k - S n)) by lia. simpl.
    apply (IH (S n) l); [by rewrite Hrest|done|done|done].
Qed.

(** A mask with a [True] has a first and a last one. *)
Lemma where_from_nonempty (n : nat) (mask : list bool) (k : nat) :
  mask !! k = Some true →
  ∃ f l, where_from n mask !! 0 = Some f ∧ last (where_from n mask) = Some l.
Proof.
  intros Hk.
  assert (n + k ∈ where_from n mask) as Hin.
  { apply where_from_elem. split; [lia|]. by replace (n + k - n) with k by lia. }
  destruct (where_from n mask) as [|x rest] eqn:Hw; [by apply elem_of_nil in Hin|].
  exists x. destruct (last_is_Some (x :: rest)) as [_ [l Hl]]; [done|]. by exists l.
Qed.

(** A mask without a [True] has none. *)
Lemma where_from_empty (n : nat) (mask : list bool) :
  (∀ k, mask !! k ≠ Some true) → where_from n mask = [].
Proof.
  intros Hno. destruct (where_from n mask) as [|x rest] eqn:Hw; [done|]. exfalso.
  assert (x ∈ where_from n mask) as [_ Hx]%where_from_elem by (rewrite Hw; by left).
  by apply Hno in Hx.
Qed.

(** ** The hole-filling pass *)

Lemma not_nan_lookup (a : ndarray) (i j d : nat) (b : bool) :
  not_nan (column a i j) !! d = Some b ↔
  d < depth_count a ∧ b = negb (is_nan (get a d i j)).
Proof.
  unfold not_nan. rewrite list_lookup_fmap. split.
  - intros Hb. destruct (column a i j !! d) as [x|] eqn:Hx; [|done].
    assert (d < depth_count a) as Hd.
    { apply lookup_lt_Some in Hx. by rewrite column_length in Hx. }
    rewrite column_lookup in Hx by done. injection Hx as <-. by injection Hb as <-.
  - intros [Hd ->]. by rewrite column_lookup.
Qed.

Lemma first_defined_spec (a : ndarray) (i j f : nat) :
  first_defined a i j = Some f →
  f < depth_count a ∧ is_nan (get a f i j) = false ∧
  ∀ d, d < f → is_nan (get a d i j) = true.
Proof.
  intros (_ & Hf & Hbefore)%(where_from_first 0). rewrite Nat.sub_0_r in Hf.
  apply not_nan_lookup in Hf as [Hf Hnan]. split; [done|]. split.
  - by destruct (is_nan (get a f i j)).
  - intros d Hd. specialize (Hbefore d ltac:(lia) Hd). rewrite Nat.sub_0_r in Hbefore.
    apply not_nan_lookup in Hbefore as [_ Hb]. by destruct (is_nan (get a d i j)).
Qed.

Lemma last_defined_spec (a : ndarray) (i j l : nat) :
  last_defined a i j = Some l →
  l < depth_count a ∧ is_nan (get a l i j) = false ∧
  ∀ d, l < d → d < depth_count a → is_nan (get a d i j) = true.
Proof.
  intros (_ & Hl & Hafter)%(where_from_last 0). rewrite Nat.sub_0_r in Hl.
  apply not_nan_lookup in Hl as [Hl Hnan]. split; [done|]. split.
  - by destruct (is_nan (get a l i j)).
  - intros d Hd Hd0. specialize (Hafter d Hd). rewrite Nat.sub_0_r in Hafter.
    destruct (is_nan (get a d i j)) eqn:Hn; [done|]. exfalso. apply Hafter.
    apply not_nan_lookup. by rewrite Hn.
Qed.

Lemma first_le_last (a : ndarray) (i j f l : nat) :
  first_defined a i j = Some f → last_defined a i j = Some l → f ≤ l.
Proof.
  intros (_ & _ & Hbefore)%first_defined_spec (_ & Hl & _)%last_defined_spec.
  destruct (decide (f ≤ l)); [done|]. rewrite Hbefore in Hl by lia. done.
Qed.

Lemma defined_exists (a : ndarray) (i j d : nat) :
  d < depth_count a → is_nan (get a d i j) = false →
  ∃ f l, first_defined a i j = Some f ∧ last_defined a i j = Some l.
Proof.
  intros Hd Hnan. apply (where_from_nonempty 0 _ d).
  apply not_nan_lookup. by rewrite Hnan.
Qed.

Lemma first_defined_None (a : ndarray) (i j : nat) :
  first_defined a i j = None ↔ ∀ d, d < depth_count a → is_nan (get a d i j) = true.
Proof.
  split.
  - intros Hnone d Hd. destruct (is_nan (get a d i j)) eqn:Hn; [done|].
    destruct (defined_exists a i j d Hd Hn) as (f & _ & Hf & _). congruence.
  - intros Hall. unfold first_defined.
    change (np_where ?m) with (where_from 0 m). rewrite where_from_empty; [done|].
    intros d [Hd Hb]%not_nan_lookup. by rewrite Hall in Hb.
Qed.

(** A column that is all NaN, or outside the array, is not [column_ok]. *)
Lemma column_ok_first (a : ndarray) (i j : nat) :
  column_ok a i j ↔
  i < (shape a).1.2 ∧ j < (shape a).2 ∧ is_Some (first_defined a i j).
Proof.
  unfold column_ok. split; intros (Hi & Hj & H); (split; [done|split; [done|]]).
  - destruct H as (d & Hd & Hn). destruct (defined_exists a i j d Hd Hn) as (f & _ & -> & _).
    by eexists.
  - destruct H as [f (Hf & Hn & _)%first_defined_spec]. by exists f.
Qed.

Lemma column_ext (a b : ndarray) (i j : nat) :
  shape a = shape b →
  (∀ d, d < depth_count b → get a d i j = get b d i j) →
  column a i j = column b i j.
Proof.
  intros Hsh Hget. unfold column, depth_count. rewrite Hsh.
  apply map_ext_in. intros d Hd%in_seq. apply Hget. unfold depth_count. lia.
Qed.

(** One turn of the loop on a column that holds a number. *)
Lemma fill_column_ok (a : ndarray) (i j f l : nat) :
  i < (shape a).1.2 → j < (shape a).2 →
  first_defined a i j = Some f → last_defined a i j = Some l →
  fill_column i j a =
  (inr (), assign_slice (assign_slice a i j 0 f (get a f i j)) i j (S l) (depth_count a)
             (get (assign_slice a i j 0 f (get a f i j)) l i j)).
Proof.
  intros Hi Hj Hf Hl. unfold fill_column. rewrite run_bind. unfold get_state at 1.
  unfold depth_count. destruct (shape a) as [[n0 n1] n2] eqn:Hsh. simpl in Hi, Hj.
  rewrite decide_True by done.
  rewrite run_bind, (run_subscript _ _ f) by exact Hf.
  rewrite run_bind. unfold subscript_last. unfold last_defined in Hl. rewrite Hl.
  rewrite run_ret. reflexivity.
Qed.

(** One turn of the loop on a column without a number, or outside the
    array: the subscript is out of range. *)
Lemma fill_column_fail (a : ndarray) (i j : nat) :
  ¬ column_ok a i j → fill_column i j a = (inl IndexError, a).
Proof.
  rewrite column_ok_first. intros Hno. unfold fill_column. rewrite run_bind.
  unfold get_state at 1. destruct (shape a) as [[n0 n1] n2] eqn:Hsh. simpl in Hno.
  case_decide as Hb; [|done].
  destruct (first_defined a i j) as [f|] eqn:Hf.
  { exfalso. apply Hno. destruct Hb. eauto. }
  rewrite run_bind. unfold subscript. unfold first_defined in Hf. by rewrite Hf.
Qed.

(** The array after one turn of the loop: the column is filled, the others
    are untouched. *)
Lemma get_fill_column (a : ndarray) (i j f l : nat) (d' i' j' : nat) :
  wf_array a →
  i < (shape a).1.2 → j < (shape a).2 →
  first_defined a i j = Some f → last_defined a i j = Some l →
  d' < depth_count a → i' < (shape a).1.2 → j' < (shape a).2 →
  get (assign_slice (assign_slice a i j 0 f (get a f i j)) i j (S l) (depth_count a)
         (get (assign_slice a i j 0 f (get a f i j)) l i j)) d' i' j' =
  if decide (i' = i ∧ j' = j) then filled_value a d' i j else get a d' i' j'.
Proof.
  intros Hwf Hi Hj Hf Hl Hd' Hi' Hj'.
  pose proof (first_le_last a i j f l Hf Hl) as Hfl.
  pose proof (last_defined_spec a i j l Hl) as (Hln & _).
  rewrite !get_assign_slice; try done; try by apply assign_slice_wf.
  unfold filled_value. rewrite Hf, Hl.
  repeat case_decide; destruct_and?; simplify_eq; try done; exfalso; intuition lia.
Qed.

Lemma fill_inv_start (g : ndarray) (npp : nat) : wf_array g → fill_inv g g npp 0 0.
Proof.
  intros Hwf. split; [done|]. split; [done|]. intros d i' j' _ _ _.
  rewrite decide_False; [done|]. lia.
Qed.

(** A column that is not done yet is as in the array the loops started on. *)
Lemma fill_inv_get (g cur : ndarray) (npp i j0 d : nat) :
  fill_inv g cur npp i j0 →
  i < (shape g).1.2 → j0 < (shape g).2 → d < depth_count g →
  get cur d i j0 = get g d i j0.
Proof.
  intros (_ & _ & Hget) Hi Hj Hd. rewrite Hget by done.
  rewrite decide_False; [done|]. lia.
Qed.

Lemma fill_inv_column (g cur : ndarray) (npp i j0 : nat) :
  fill_inv g cur npp i j0 →
  i < (shape g).1.2 → j0 < (shape g).2 →
  column cur i j0 = column g i j0.
Proof.
  intros Hinv Hi Hj. apply column_ext; [by destruct Hinv|].
  intros d Hd. by eapply fill_inv_get.
Qed.

Lemma fill_inv_next_row (g cur : ndarray) (npp i : nat) :
  fill_inv g cur npp i npp → fill_inv g cur npp (S i) 0.
Proof.
  intros (Hsh & Hwf & Hget). split; [done|]. split; [done|].
  intros d i' j' Hd Hi' Hj'. rewrite Hget by done.
  repeat case_decide; first [done | exfalso; lia].
Qed.

(** The inner loop, from longitude index [j0] on: it fills the columns of
    latitude index [i] one after the other, and stops with [IndexError] at
    the first one that holds no number or lies outside the array. *)
Lemma fill_row (g : ndarray) (npp i : nat) (pps : list float) (j0 : nat) (cur : ndarray) :
  fill_inv g cur npp i j0 →
  ∃ r fin,
    for_each (enumerate_from j0 pps) (λ '(j, _), fill_column i j) cur = (r, fin) ∧
    ((r = inr () ∧ fill_inv g fin npp i (j0 + length pps) ∧
      ∀ j, j0 ≤ j → j < j0 + length pps → column_ok g i j)
     ∨ (r = inl IndexError ∧
        ∃ j, j0 ≤ j ∧ j < j0 + length pps ∧ ¬ column_ok g i j)).
Proof.
  revert j0 cur. induction pps as [|p pps IH]; intros j0 cur Hinv.
  - exists (inr ()), cur. split; [done|]. left. rewrite Nat.add_0_r.
    split; [done|]. split; [done|]. simpl. lia.
  - cbn [enumerate_from]. rewrite for_each_cons.
    pose proof Hinv as (Hsh & Hwf & Hget).
    destruct (decide (i < (shape g).1.2 ∧ j0 < (shape g).2)) as [[Hi Hj]|Hout].
    2:{ (* outside the array *)
      assert (¬ column_ok g i j0) as Hno by (intros (? & ? & _); by apply Hout).
      rewrite fill_column_fail.
      - exists (inl IndexError), cur. split; [done|]. right. split; [done|].
        exists j0. simpl. split; [lia|]. split; [lia|done].
      - unfold column_ok. rewrite Hsh. intros (? & ? & _). by apply Hout. }
    pose proof (fill_inv_column g cur npp i j0 Hinv Hi Hj) as Hcol.
    assert (first_defined cur i j0 = first_defined g i j0) as Hfirst
      by (unfold first_defined; by rewrite Hcol).
    assert (last_defined cur i j0 = last_defined g i j0) as Hlast
      by (unfold last_defined; by rewrite Hcol).
    assert (depth_count cur = depth_count g) as Hdc by (unfold depth_count; by rewrite Hsh).
    destruct (first_defined g i j0) as [f|] eqn:Hf.
    2:{ (* a column of NaN *)
      rewrite fill_column_fail.
      - exists (inl IndexError), cur. split; [done|]. right. split; [done|].
        exists j0. simpl. split; [lia|]. split; [lia|].
        rewrite column_ok_first, Hf. intros (_ & _ & [? ?]). done.
      - rewrite column_ok_first, Hfirst. intros (_ & _ & [? ?]). done. }
    destruct (last_defined g i j0) as [l|] eqn:Hl.
    2:{ exfalso. unfold first_defined, last_defined in *.
        destruct (np_where (not_nan (column g i j0))); [done|].
        by apply last_None in Hl. }
    rewrite (fill_column_ok cur i j0 f l) by (rewrite ?Hsh; done).
    set (next := assign_slice _ _ _ _ _ _).
    destruct (IH (S j0) next) as (r & fin & Hrun & Hres).
    { (* the invariant holds again *)
      split; [done|]. split; [by do 2 apply assign_slice_wf|].
      intros d i' j' Hd Hi' Hj'. subst next.
      rewrite (get_fill_column cur i j0 f l) by (rewrite ?Hsh, ?Hdc; done).
      destruct (decide (i' = i ∧ j' = j0)) as [[-> ->]|Hne].
      - rewrite decide_True by lia.
        unfold filled_value. rewrite Hfirst, Hlast, Hf, Hl.
        pose proof (first_defined_spec g i j0 f Hf) as (Hfn & _).
        pose proof (last_defined_spec g i j0 l Hl) as (Hln & _).
        rewrite !(fill_inv_get g cur npp i j0) by done. done.
      - rewrite Hget by done.
        repeat case_decide; first [done | exfalso; intuition lia]. }
    exists r, fin. split; [done|].
    replace (j0 + length (p :: pps)) with (S j0 + length pps) by (simpl; lia).
    destruct Hres as [(-> & Hfin & Hok)|(-> & j & Hj0 & Hjn & Hno)].
    + left. split; [done|]. split; [done|]. intros j Hj0 Hjn.
      destruct (decide (j = j0)) as [->|Hne]; [|apply Hok; lia].
      apply column_ok_first. rewrite Hf. eauto.
    + right. split; [done|]. exists j. split; [lia|]. done.
Qed.

(** The outer loop, from latitude index [i0] on. *)
Lemma fill_rows (g : ndarray) (pp tts : list float) (i0 : nat) (cur : ndarray) :
  fill_inv g cur (length pp) i0 0 →
  ∃ r fin,
    for_each (enumerate_from i0 tts) (λ '(i, _),
      for_each (enumerate pp) (λ '(j, _), fill_column i j)) cur = (r, fin) ∧
    ((r = inr () ∧ fill_inv g fin (length pp) (i0 + length tts) 0 ∧
      ∀ i j, i0 ≤ i → i < i0 + length tts → j < length pp → column_ok g i j)
     ∨ (r = inl IndexError ∧
        ∃ i j, i0 ≤ i ∧ i < i0 + length tts ∧ j < length pp ∧ ¬ column_ok g i j)).
Proof.
  revert i0 cur. induction tts as [|t tts IH]; intros i0 cur Hinv.
  - exists (inr ()), cur. split; [done|]. left. rewrite Nat.add_0_r.
    split; [done|]. split; [done|]. simpl. lia.
  - cbn [enumerate_from]. rewrite for_each_cons. unfold enumerate.
    destruct (fill_row g (length pp) i0 pp 0 cur Hinv) as (r & mid & -> & Hres).
    replace (i0 + length (t :: tts)) with (S i0 + length tts) by (simpl; lia).
    destruct Hres as [(-> & Hmid & Hok)|(-> & j & _ & Hjn & Hno)].
    + destruct (IH (S i0) mid) as (r & fin & Hrun & Hres);
        [by apply fill_inv_next_row|].
      exists r, fin. split; [done|].
      destruct Hres as [(-> & Hfin & Hok')|(-> & i & j & Hi0 & Hin & Hjn & Hno)].
      * left. split; [done|]. split; [done|]. intros i j Hi0 Hin Hjn.
        destruct (decide (i = i0)) as [->|Hne]; [apply Hok; lia|apply Hok'; lia].
      * right. split; [done|]. exists i, j. split; [lia|]. done.
    + exists (inl IndexError), mid. split; [done|]. right. split; [done|].
      exists i0, j. split; [lia|]. split; [lia|]. done.
Qed.

(** The hole-filling pass on an array [g], for loops over the axes [tt] and
    [pp]: it succeeds exactly when every column the loops visit holds a
    number (and lies within the array), and then it has filled those
    columns; otherwise it stops with [IndexError]. *)
Lemma fill_holes_spec (tt pp : list float) (g : ndarray) :
  wf_array g →
  ∃ r fin,
    fill_holes tt pp g = (r, fin) ∧
    ((r = inr () ∧
      (∀ i j, i < length tt → j < length pp → column_ok g i j) ∧
      shape fin = shape g ∧ wf_array fin ∧
      ∀ d i j, d < depth_count g → i < (shape g).1.2 → j < (shape g).2 →
        get fin d i j =
        if decide (i < length tt ∧ j < length pp) then filled_value g d i j
        else get g d i j)
     ∨ (r = inl IndexError ∧
        ∃ i j, i < length tt ∧ j < length pp ∧ ¬ column_ok g i j)).
Proof.
  intros Hwf. unfold fill_holes, enumerate.
  destruct (fill_rows g pp tt 0 g (fill_inv_start g (length pp) Hwf))
    as (r & fin & Hrun & Hres).
  exists r, fin. split; [done|].
  destruct Hres as [(-> & (Hsh & Hwf' & Hget) & Hok)|(-> & i & j & _ & Hi & Hj & Hno)].
  - left. split; [done|]. split; [intros i j Hi Hj; apply Hok; lia|].
    split; [done|]. split; [done|].
    intros d i j Hd Hi Hj. rewrite Hget by done.
    repeat case_decide; first [done | exfalso; simpl in *; intuition lia].
  - right. split; [done|]. exists i, j. done.
Qed.

(** C1, as the claim has it, fails: every column of [holed_column] holds a
    number, the pass succeeds on it and leaves the NaN between the two
    numbers where it is. *)
Lemma fill_holes_interior_counterexample :
  wf_array holed_column ∧
  column_ok holed_column 0 0 ∧
  fill_holes [0%float] [0%float] holed_column = (inr (), holed_column) ∧
  is_nan (get holed_column 1 0 0) = true.
Proof.
  split; [reflexivity|]. split; [|split; reflexivity].
  split; [vm_compute; lia|]. split; [vm_compute; lia|].
  exists 0. split; [vm_compute; lia|reflexivity].
Qed.

Example fill_holes_ragged :
  fill_holes [0%float] [0; 0]%float ragged_columns =
  (inr (), {| shape := (4, 1, 2); buf := [2; 1; 2; 3; 4; 3; 4; 3]%float |}).
Proof. reflexivity. Qed.

(** C1, amended. On an array every column of which holds a number, the
    hole-filling pass succeeds and keeps the shape; in every column each
    index shallower than the first defined index holds the value at that
    index, each index deeper than the last defined index holds the value at
    that one, and each entry from the first to the last defined index is
    unchanged. So no NaN is left outside that range, and none at all in a
    column that has no NaN between its first and last defined index. *)
Theorem fill_holes_fills (tt pp : list float) (g : ndarray) :
  wf_array g →
  length tt = (shape g).1.2 → length pp = (shape g).2 →
  (∀ i j, i < length tt → j < length pp →
          ∃ d, d < depth_count g ∧ is_nan (get g d i j) = false) →
  ∃ g',
    fill_holes tt pp g = (inr (), g') ∧ shape g' = shape g ∧ wf_array g' ∧
    ∀ i j, i < length tt → j < length pp →
      ∃ first last,
        first_defined g i j = Some first ∧ last_defined g i j = Some last ∧
        first ≤ last ∧ last < depth_count g ∧
        is_nan (get g first i j) = false ∧ is_nan (get g last i j) = false ∧
        (∀ d, d < first → is_nan (get g d i j) = true) ∧
        (∀ d, last < d → d < depth_count g → is_nan (get g d i j) = true) ∧
        (∀ d, d < first → get g' d i j = get g first i j) ∧
        (∀ d, last < d → d < depth_count g → get g' d i j = get g last i j) ∧
        (∀ d, first ≤ d → d ≤ last → get g' d i j = get g d i j) ∧
        ((∀ d, first ≤ d → d ≤ last → is_nan (get g d i j) = false) ↔
         (∀ d, d < depth_count g → is_nan (get g' d i j) = false)).
Proof.
  intros Hwf Htt Hpp Hdef.
  destruct (fill_holes_spec tt pp g Hwf) as (r & g' & Hrun & Hres).
  destruct Hres as [(-> & Hok & Hsh & Hwf' & Hget)|(-> & i & j & Hi & Hj & Hno)].
  2:{ exfalso. apply Hno. split; [lia|]. split; [lia|]. by apply Hdef. }
  exists g'. split; [done|]. split; [done|]. split; [done|].
  intros i j Hi Hj. destruct (Hdef i j Hi Hj) as (d0 & Hd0 & Hn0).
  destruct (defined_exists g i j d0 Hd0 Hn0) as (f & l & Hf & Hl).
  exists f, l.
  pose proof (first_defined_spec g i j f Hf) as (Hfn & Hfd & Hfb).
  pose proof (last_defined_spec g i j l Hl) as (Hln & Hld & Hla).
  pose proof (first_le_last g i j f l Hf Hl) as Hfl.
  assert (∀ d, d < depth_count g →
    get g' d i j = if decide (d < f) then get g f i j
                   else if decide (l < d) then get g l i j else get g d i j) as Hval.
  { intros d Hd. rewrite Hget by (done || lia). rewrite decide_True by done.
    unfold filled_value. by rewrite Hf, Hl. }
  split; [done|]. split; [done|]. split; [done|]. split; [done|].
  split; [done|]. split; [done|]. split; [done|]. split; [done|].
  split; [|split; [|split; [|split]]].
  - intros d Hd. rewrite Hval by lia. by rewrite decide_True.
  - intros d Hd Hdn. rewrite Hval by done.
    rewrite decide_False by lia. by rewrite decide_True.
  - intros d Hfd' Hdl. rewrite Hval by lia.
    rewrite decide_False by lia. by rewrite decide_False by lia.
  - intros Hmid d Hd. rewrite Hval by done.
    repeat case_decide; [done|done|]. apply Hmid; lia.
  - intros Hall d Hfd' Hdl. specialize (Hall d ltac:(lia)).
    rewrite Hval in Hall by lia.
    rewrite decide_False in Hall by lia. by rewrite decide_False in Hall by lia.
Qed.

Lemma fill_holes_fills_witness :
  ∃ g',
    fill_holes [0%float] [0; 0]%float ragged_columns = (inr (), g') ∧
    shape g' = (4, 1, 2) ∧ wf_array g' ∧
    ∀ i j, i < 1 → j < 2 →
      ∃ first last,
        first_defined ragged_columns i j = Some first ∧
        last_defined ragged_columns i j = Some last ∧
        first ≤ last ∧ last < 4 ∧
        is_nan (get ragged_columns first i j) = false ∧
        is_nan (get ragged_columns last i j) = false ∧
        (∀ d, d < first → is_nan (get ragged_columns d i j) = true) ∧
        (∀ d, last < d → d < 4 → is_nan (get ragged_columns d i j) = true) ∧
        (∀ d, d < first → get g' d i j = get ragged_columns first i j) ∧
        (∀ d, last < d → d < 4 → get g' d i j = get ragged_columns last i j) ∧
        (∀ d, first ≤ d → d ≤ last → get g' d i j = get ragged_columns d i j) ∧
        ((∀ d, first ≤ d → d ≤ last → is_nan (get ragged_columns d i j) = false) ↔
         (∀ d, d < 4 → is_nan (get g' d i j) = false)).
Proof.
  apply (fill_holes_fills [0%float] [0; 0]%float ragged_columns);
    [reflexivity|reflexivity|reflexivity|].
  intros i j Hi Hj. simpl in Hi, Hj.
  destruct i as [|i]; [|lia]. destruct j as [|[|j]]; [exists 1|exists 0|lia];
    (split; [vm_compute; lia|reflexivity]).
Defined.

(** C2, as the claim has it, fails: on an array with a column of NaN the
    pass raises [IndexError], the out-of-range fault of the subscript, and no
    error of another kind. *)
Lemma fill_holes_empty_column_counterexample :
  wf_array empty_column ∧
  (∀ d, d < 2 → is_nan (get empty_column d 0 1) = true) ∧
  (fill_holes [0%float] [0; 0]%float empty_column).1 = inl IndexError ∧
  ¬ ∃ e, (fill_holes [0%float] [0; 0]%float empty_column).1 = inl e ∧ e ≠ IndexError.
Proof.
  split; [reflexivity|]. split.
  { intros [|[|d]] Hd; [reflexivity|reflexivity|lia]. }
  split; [reflexivity|]. intros (e & He & Hne). apply Hne.
  change ((fill_holes [0%float] [0; 0]%float empty_column).1) with (@inl exn unit IndexError) in He.
  congruence.
Qed.

(** C2, amended. On an array with a column that holds no number, the
    hole-filling pass stops with the [IndexError] of the subscript [[0]] on
    the empty result of [np.where]. *)
Theorem fill_holes_empty_column (tt pp : list float) (g : ndarray) :
  wf_array g →
  length tt = (shape g).1.2 → length pp = (shape g).2 →
  (∃ i j, i < length tt ∧ j < length pp ∧
          ∀ d, d < depth_count g → is_nan (get g d i j) = true) →
  (fill_holes tt pp g).1 = inl IndexError.
Proof.
  intros Hwf Htt Hpp (i & j & Hi & Hj & Hnan).
  destruct (fill_holes_spec tt pp g Hwf) as (r & g' & Hrun & Hres). rewrite Hrun.
  destruct Hres as [(-> & Hok & _)|(-> & _)]; [|done]. exfalso.
  destruct (Hok i j Hi Hj) as (_ & _ & d & Hd & Hdef).
  rewrite Hnan in Hdef by done. done.
Qed.

Lemma fill_holes_empty_column_witness :
  (fill_holes [0%float] [0; 0]%float empty_column).1 = inl IndexError.
Proof.
  apply (fill_holes_empty_column [0%float] [0; 0]%float empty_column);
    [reflexivity|reflexivity|reflexivity|].
  exists 0, 1. split; [simpl; lia|]. split; [simpl; lia|].
  intros [|[|d]] Hd; [reflexivity|reflexivity|vm_compute in Hd; lia].
Defined.

Lemma for_each_fixed {S A} (l : list A) (body : A → M S unit) (s : S) :
  (∀ x, x ∈ l → body x s = (inr (), s)) → for_each l body s = (inr (), s).
Proof.
  induction l as [|x l IH]; intros Hfix; [done|].
  rewrite for_each_cons, Hfix by by left. apply IH. intros y Hy. apply Hfix. by right.
Qed.

(** A column with numbers at both ends is left as it is. *)
Lemma fill_column_fixed (a : ndarray) (i j : nat) :
  i < (shape a).1.2 → j < (shape a).2 → 0 < depth_count a →
  is_nan (get a 0 i j) = false →
  is_nan (get a (depth_count a - 1) i j) = false →
  fill_column i j a = (inr (), a).
Proof.
  intros Hi Hj Hn Hfirst Hlast.
  destruct (defined_exists a i j 0 Hn Hfirst) as (f & l & Hf & Hl).
  pose proof (first_defined_spec a i j f Hf) as (_ & _ & Hfb).
  pose proof (last_defined_spec a i j l Hl) as (Hln & _ & Hla).
  assert (f = 0) as ->.
  { destruct f as [|f]; [done|]. rewrite Hfb in Hfirst by lia. done. }
  assert (S l = depth_count a) as Hl'.
  { destruct (decide (S l = depth_count a)); [done|].
    rewrite Hla in Hlast by lia. done. }
  rewrite (fill_column_ok a i j 0 l) by done.
  rewrite (assign_slice_empty a i j 0 0) by done.
  by rewrite assign_slice_empty by lia.
Qed.

(** C6. Hole filling is idempotent: on the array that a successful pass
    returns, a second pass succeeds and returns that array again. *)
Theorem fill_holes_idempotent (tt pp : list float) (g g' : ndarray) :
  wf_array g →
  fill_holes tt pp g = (inr (), g') →
  fill_holes tt pp g' = (inr (), g').
Proof.
  intros Hwf Hrun.
  destruct (fill_holes_spec tt pp g Hwf) as (r & fin & Hrun' & Hres).
  rewrite Hrun in Hrun'. injection Hrun' as <- <-.
  destruct Hres as [(_ & Hok & Hsh & Hwf' & Hget)|(? & _)]; [|done].
  unfold fill_holes. apply for_each_fixed. intros [i t] [_ Hi]%enumerate_from_elem.
  apply for_each_fixed. intros [j p] [_ Hj]%enumerate_from_elem.
  apply lookup_lt_Some in Hi, Hj. rewrite Nat.sub_0_r in Hi, Hj.
  destruct (Hok i j Hi Hj) as (Hin & Hjn & d0 & Hd0 & Hn0).
  destruct (defined_exists g i j d0 Hd0 Hn0) as (f & l & Hf & Hl).
  pose proof (first_defined_spec g i j f Hf) as (Hfn & Hfd & _).
  pose proof (last_defined_spec g i j l Hl) as (Hln & Hld & _).
  pose proof (first_le_last g i j f l Hf Hl) as Hfl.
  assert (depth_count g' = depth_count g) as Hdc by (unfold depth_count; by rewrite Hsh).
  apply fill_column_fixed; rewrite ?Hsh, ?Hdc; try done; try lia.
  - rewrite Hget by (done || lia). rewrite decide_True by done.
    unfold filled_value. rewrite Hf, Hl.
    repeat case_decide; first [done | lia | by replace f with 0 in Hfd by lia].
  - rewrite Hget by (done || lia). rewrite decide_True by done.
    unfold filled_value. rewrite Hf, Hl.
    repeat case_decide; first [done | lia | by replace (depth_count g - 1) with l by lia].
Qed.

Lemma fill_holes_idempotent_witness :
  fill_holes [0%float] [0; 0]%float
    {| shape := (4, 1, 2); buf := [2; 1; 2; 3; 4; 3; 4; 3]%float |} =
  (inr (), {| shape := (4, 1, 2); buf := [2; 1; 2; 3; 4; 3; 4; 3]%float |}).
Proof.
  apply (fill_holes_idempotent [0%float] [0; 0]%float ragged_columns); reflexivity.
Defined.

(** ** The pipeline *)

Lemma length_bind_const {A B} (f : A → list B) (l : list A) (n : nat) :
  (∀ x, length (f x) = n) → length (l ≫= f) = length l * n.
Proof.
  intros Hf. induction l as [|x l IH]; [done|].
  rewrite bind_cons, length_app, Hf, IH. simpl. lia.
Qed.

Lemma choose_short {A} (k : nat) (l : list A) : length l < k → choose k l = [].
Proof.
  revert k. induction l as [|x l IH]; intros k Hk.
  - destruct k; [simpl in Hk; lia|done].
  - destruct k as [|k]; [simpl in Hk; lia|]. simpl in *.
    by rewrite !IH by lia.
Qed.

Section PipelineFacts.
Variable non_coplanar : point3 → point3 → point3 → point3 → bool.
Variable linear_interpolant : list point3 → list float → point3 → float.
Variable axis_sample : float → float → nat → nat → float.
Variable gaussian_kernel1d : float → list float.

Lemma init_axis_lengths (min_max_dep min_max_lat min_max_lon : float * float)
    (n_rtp : nat * nat * nat) :
  let axes := init_axis axis_sample min_max_dep min_max_lat min_max_lon n_rtp in
  (length axes.1.1, length axes.1.2, length axes.2) = n_rtp.
Proof.
  destruct n_rtp as [[n_dep n_lat] n_lon]. simpl.
  by rewrite !length_map, !length_seq.
Qed.

Lemma meshgrid_length (dd tt pp : list float) :
  length (meshgrid dd tt pp) = length dd * length tt * length pp.
Proof.
  unfold meshgrid.
  rewrite (length_bind_const _ dd (length tt * length pp)); [lia|].
  intros d. rewrite (length_bind_const _ tt (length pp)); [lia|].
  intros t. rewrite (length_bind_const _ pp 1); [lia|done].
Qed.

(** A cloud of fewer than four points cannot be triangulated. *)
Lemma few_points_not_triangulable (cloud : list point3) :
  length cloud < 4 → triangulable non_coplanar cloud = false.
Proof. intros Hlen. unfold triangulable. by rewrite choose_short. Qed.

(** The interpolated array has the shape of the axes. *)
Lemma scipy_griddata_shape (cloud : list point3) (vals dd tt pp : list float) (grid : ndarray) :
  scipy_griddata non_coplanar linear_interpolant cloud vals dd tt pp = inr grid →
  shape grid = (length dd, length tt, length pp) ∧ wf_array grid.
Proof.
  unfold scipy_griddata. destruct (triangulable _ _); [|done]. intros [= <-].
  split; [done|]. unfold wf_array. simpl. by rewrite length_map, meshgrid_length.
Qed.

(** The run of [griddata], stage by stage. *)
Lemma griddata_run (min_max_dep min_max_lat min_max_lon : float * float)
    (n_rtp : nat * nat * nat) (w : world) :
  let axes := init_axis axis_sample min_max_dep min_max_lat min_max_lon n_rtp in
  let o1 := CrustModel.set_pp axes.2
              (CrustModel.set_tt axes.1.2 (CrustModel.set_dd axes.1.1 (self w))) in
  let tr1 := (trace w ++ [Enter Axes]) ++ [Enter Interpolate] in
  griddata non_coplanar linear_interpolant axis_sample
    min_max_dep min_max_lat min_max_lon n_rtp w =
  match CrustModel.points (self w) with
  | None => (inl AttributeError, {| self := o1; trace := tr1 |})
  | Some points =>
      match scipy_griddata non_coplanar linear_interpolant
              (coordinates points) (values points) axes.1.1 axes.1.2 axes.2 with
      | inl e => (inl e, {| self := o1; trace := tr1 |})
      | inr grid_vp =>
          match fill_holes axes.1.2 axes.2 grid_vp with
          | (inl e, _) => (inl e, {| self := o1; trace := tr1 ++ [Enter FillHoles] |})
          | (inr _, filled) =>
              (inr (),
               {| self := CrustModel.set_vel filled
                            (CrustModel.set_zeta (np_zeros n_rtp)
                               (CrustModel.set_xi (np_zeros n_rtp)
                                  (CrustModel.set_eta (np_zeros n_rtp) o1)));
                  trace := (tr1 ++ [Enter FillHoles]) ++ [Enter Output] |})
          end
      end
  end.
Proof.
  intros axes o1 tr1. unfold griddata. fold axes.
  destruct (CrustModel.points (self w)) as [points|] eqn:Hpts.
  2:{ unfold mbind, M_bind, bind, emit, assign, modify, attr. simpl. by rewrite Hpts. }
  destruct (scipy_griddata _ _ _ _ _ _ _) as [e|grid_vp] eqn:Hgrid.
  { unfold mbind, M_bind, bind, emit, assign, modify, attr, lift. simpl.
    rewrite Hpts. fold axes. rewrite Hgrid. done. }
  destruct (fill_holes _ _ grid_vp) as [[e|[]] filled] eqn:Hfill.
  - unfold mbind, M_bind, bind, emit, assign, modify, attr, lift, local. simpl.
    rewrite Hpts. fold axes. rewrite Hgrid. simpl. rewrite Hfill. done.
  - unfold mbind, M_bind, bind, emit, assign, modify, attr, lift, local. simpl.
    rewrite Hpts. fold axes. rewrite Hgrid. simpl. rewrite Hfill. done.
Qed.
Lemma np_zeros_wf (sh : nat * nat * nat) : wf_array (np_zeros sh).
Proof. unfold wf_array, np_zeros. simpl. by rewrite length_replicate. Qed.

Lemma np_zeros_all_zero (sh : nat * nat * nat) : all_zero (np_zeros sh).
Proof. intros x [Hx _]%elem_of_replicate. done. Qed.

(** C5. When the point cloud has fewer than four non-coplanar points (in
    particular, fewer than four points), the interpolation raises its
    error, [griddata] passes it on and stops there: the run has entered
    the axis and the interpolation stage and no other, so the hole-filling
    pass is not executed, and no output array is assigned. *)
Theorem griddata_aborts_before_fill
    (min_max_dep min_max_lat min_max_lon : float * float) (n_rtp : nat * nat * nat)
    (w : world) (points : list row) :
  CrustModel.points (self w) = Some points →
  length points < 4 ∨ triangulable non_coplanar (coordinates points) = false →
  ∃ w',
    griddata non_coplanar linear_interpolant axis_sample
      min_max_dep min_max_lat min_max_lon n_rtp w = (inl QhullError, w') ∧
    trace w' = trace w ++ [Enter Axes; Enter Interpolate] ∧
    (Enter FillHoles ∉ drop (length (trace w)) (trace w')) ∧
    CrustModel.vel (self w') = CrustModel.vel (self w) ∧
    CrustModel.eta (self w') = CrustModel.eta (self w) ∧
    CrustModel.xi (self w') = CrustModel.xi (self w) ∧
    CrustModel.zeta (self w') = CrustModel.zeta (self w).
Proof.
  intros Hpts Hfew.
  assert (triangulable non_coplanar (coordinates points) = false) as Htri.
  { destruct Hfew as [Hlen|Htri]; [|done]. apply few_points_not_triangulable.
    unfold coordinates. by rewrite length_map. }
  rewrite griddata_run, Hpts. unfold scipy_griddata. rewrite Htri.
  eexists. split; [done|]. cbn [trace self].
  rewrite <- app_assoc. split; [done|]. split.
  - rewrite drop_app_length. simpl. rewrite !elem_of_cons, elem_of_nil.
    intros [?|[?|[]]]; discriminate.
  - done.
Qed.

(** C4. When the interpolation succeeds for the requested counts, the
    output model that [griddata] produces consists of four arrays of the
    shape of the counts: the velocity grid and the three arrays [eta],
    [xi], [zeta] of zeros. It produces one exactly when every column of
    the interpolated grid holds a number; otherwise the hole-filling pass
    raises [IndexError]. *)
Theorem griddata_output_model
    (min_max_dep min_max_lat min_max_lon : float * float) (n_rtp : nat * nat * nat)
    (w : world) (points : list row) :
  let axes := init_axis axis_sample min_max_dep min_max_lat min_max_lon n_rtp in
  let run := griddata non_coplanar linear_interpolant axis_sample
               min_max_dep min_max_lat min_max_lon n_rtp w in
  CrustModel.points (self w) = Some points →
  triangulable non_coplanar (coordinates points) = true →
  ∃ grid_vp,
    scipy_griddata non_coplanar linear_interpolant
      (coordinates points) (values points) axes.1.1 axes.1.2 axes.2 = inr grid_vp ∧
    shape grid_vp = n_rtp ∧
    (run.1 = inr () → output_model n_rtp (self run.2)) ∧
    (run.1 = inr () ∨ run.1 = inl IndexError) ∧
    (run.1 = inr () ↔
     ∀ i j, i < n_rtp.1.2 → j < n_rtp.2 →
            ∃ d, d < n_rtp.1.1 ∧ is_nan (get grid_vp d i j) = false).
Proof.
  intros axes run Hpts Htri.
  pose proof (init_axis_lengths min_max_dep min_max_lat min_max_lon n_rtp) as Hlen.
  cbv zeta in Hlen. fold axes in Hlen.
  destruct (scipy_griddata non_coplanar linear_interpolant (coordinates points)
              (values points) axes.1.1 axes.1.2 axes.2) as [e|grid_vp] eqn:Hgrid.
  { unfold scipy_griddata in Hgrid. by rewrite Htri in Hgrid. }
  destruct (scipy_griddata_shape _ _ _ _ _ _ Hgrid) as [Hsh Hwf].
  rewrite Hlen in Hsh.
  exists grid_vp. split; [done|]. split; [done|].
  assert (length axes.1.2 = n_rtp.1.2 ∧ length axes.2 = n_rtp.2) as [Htt Hpp].
  { rewrite <- Hlen. done. }
  subst run. rewrite griddata_run, Hpts. fold axes. rewrite Hgrid.
  destruct (fill_holes_spec axes.1.2 axes.2 grid_vp Hwf) as (r & fin & -> & Hres).
  destruct Hres as [(-> & Hok & Hshf & Hwff & _)|(-> & i & j & Hi & Hj & Hno)].
  - cbn [fst snd self]. split; [|split; [by left|]].
    + intros _. exists (np_zeros n_rtp), (np_zeros n_rtp), (np_zeros n_rtp), fin.
      rewrite Hshf, Hsh.
      repeat split; first [done | apply np_zeros_wf | apply np_zeros_all_zero].
    + split; [|done]. intros _ i j Hi Hj.
      destruct (Hok i j) as (_ & _ & d & Hd & Hdef); [lia|lia|].
      exists d. unfold depth_count in Hd. rewrite Hsh in Hd. done.
  - cbn [fst snd self]. split; [done|]. split; [by right|].
    split; [done|]. intros Hall. exfalso. apply Hno.
    unfold column_ok. rewrite Hsh. split; [lia|]. split; [lia|].
    destruct (Hall i j) as (d & Hd & Hdef); [lia|lia|].
    exists d. unfold depth_count. rewrite Hsh. done.
Qed.

Lemma correlate1d_shape (a : ndarray) (weights : list float) (axis : nat) :
  shape (correlate1d a weights axis) = shape a ∧ wf_array (correlate1d a weights axis).
Proof.
  split; [done|]. unfold wf_array, correlate1d. simpl.
  by rewrite length_map, length_seq.
Qed.

(** The filtered array has the shape of its input, and as many entries. *)
Lemma gaussian_filter_shape (a : ndarray) (sigma : float) :
  shape (gaussian_filter gaussian_kernel1d a sigma) = shape a ∧
  (wf_array a → wf_array (gaussian_filter gaussian_kernel1d a sigma)).
Proof.
  unfold gaussian_filter. destruct (_ <? _)%float; [|done]. simpl.
  split.
  - reflexivity.
  - intros _. apply correlate1d_shape.
Qed.

(** C7. Smoothing keeps the shape: on a model state with a velocity grid,
    [smooth] returns, for every spread, and the grid it leaves in [vel]
    has the shape of the one it found there (and as many entries). *)
Theorem smooth_preserves_shape (sigma : float) (w : world) (v : ndarray) :
  CrustModel.vel (self w) = Some v →
  ∃ v',
    (smooth gaussian_kernel1d sigma w).1 = inr () ∧
    CrustModel.vel (self (smooth gaussian_kernel1d sigma w).2) = Some v' ∧
    v' = gaussian_filter gaussian_kernel1d v sigma ∧
    shape v' = shape v ∧
    (wf_array v → wf_array v').
Proof.
  intros Hvel. exists (gaussian_filter gaussian_kernel1d v sigma).
  unfold smooth, mbind, M_bind, bind, emit, assign, modify, attr. simpl.
  rewrite Hvel. simpl. split; [done|]. split; [done|]. split; [done|].
  apply gaussian_filter_shape.
Qed.

(** C9. [smooth] assigns [vel] and nothing else: whatever the state it is
    called on, and whether it returns or raises, the fields [eta], [xi],
    [zeta] and the axes [dd], [tt], [pp] (and the source model and its
    points) are after the call what they were before. *)
Theorem smooth_frame (sigma : float) (w : world) :
  let o := self w in
  let o' := self (smooth gaussian_kernel1d sigma w).2 in
  CrustModel.eta o' = CrustModel.eta o ∧
  CrustModel.xi o' = CrustModel.xi o ∧
  CrustModel.zeta o' = CrustModel.zeta o ∧
  CrustModel.dd o' = CrustModel.dd o ∧
  CrustModel.tt o' = CrustModel.tt o ∧
  CrustModel.pp o' = CrustModel.pp o ∧
  CrustModel.points o' = CrustModel.points o ∧
  CrustModel.mod_data o' = CrustModel.mod_data o ∧
  CrustModel.mod_lat o' = CrustModel.mod_lat o ∧
  CrustModel.mod_lon o' = CrustModel.mod_lon o.
Proof.
  unfold smooth, mbind, M_bind, bind, emit, assign, modify, attr. simpl.
  destruct (CrustModel.vel (self w)); simpl; repeat split.
Qed.
End PipelineFacts.

(** The boundary scenario: three points, and a grid of five depths at one
    latitude and one longitude. *)
Lemma griddata_aborts_before_fill_witness :
  CrustModel.points (self single_model) =
    Some [(0, 40, 117, 5); (10, 40, 117, 6); (20, 40, 117, 6.5)]%float ∧
  ∃ w',
    griddata any_four depth_of_query two_ends
      (-10, 30)%float (39, 41)%float (116, 118)%float (5, 1, 1) single_model =
      (inl QhullError, w') ∧
    trace w' = trace single_model ++ [Enter Axes; Enter Interpolate] ∧
    (Enter FillHoles ∉ drop (length (trace single_model)) (trace w')) ∧
    CrustModel.vel (self w') = CrustModel.vel (self single_model) ∧
    CrustModel.eta (self w') = CrustModel.eta (self single_model) ∧
    CrustModel.xi (self w') = CrustModel.xi (self single_model) ∧
    CrustModel.zeta (self w') = CrustModel.zeta (self single_model).
Proof.
  split; [reflexivity|].
  apply (griddata_aborts_before_fill any_four depth_of_query two_ends
           (-10, 30)%float (39, 41)%float (116, 118)%float (5, 1, 1) single_model
           [(0, 40, 117, 5); (10, 40, 117, 6); (20, 40, 117, 6.5)]%float);
    [reflexivity|left; simpl; lia].
Defined.

Lemma griddata_output_model_witness :
  ∃ grid_vp,
    scipy_griddata any_four depth_of_query
      (coordinates (flattened four_cells four_lat four_lon))
      (values (flattened four_cells four_lat four_lon))
      [0; 50]%float [30%float] [100; 110]%float = inr grid_vp ∧
    shape grid_vp = (2, 1, 2) ∧
    ((griddata any_four depth_of_query two_ends
        (0, 50)%float (30, 40)%float (100, 110)%float (2, 1, 2) four_model).1 = inr () →
     output_model (2, 1, 2)
       (self (griddata any_four depth_of_query two_ends
                (0, 50)%float (30, 40)%float (100, 110)%float (2, 1, 2) four_model).2)) ∧
    ((griddata any_four depth_of_query two_ends
        (0, 50)%float (30, 40)%float (100, 110)%float (2, 1, 2) four_model).1 = inr () ∨
     (griddata any_four depth_of_query two_ends
        (0, 50)%float (30, 40)%float (100, 110)%float (2, 1, 2) four_model).1 = inl IndexError) ∧
    ((griddata any_four depth_of_query two_ends
        (0, 50)%float (30, 40)%float (100, 110)%float (2, 1, 2) four_model).1 = inr () ↔
     ∀ i j, i < 1 → j < 2 → ∃ d, d < 2 ∧ is_nan (get grid_vp d i j) = false).
Proof.
  apply (griddata_output_model any_four depth_of_query two_ends
           (0, 50)%float (30, 40)%float (100, 110)%float (2, 1, 2) four_model
           (flattened four_cells four_lat four_lon)); reflexivity.
Defined.

Example griddata_four_cells :
  (griddata any_four depth_of_query two_ends
     (0, 50)%float (30, 40)%float (100, 110)%float (2, 1, 2) four_model).1 = inr () ∧
  CrustModel.vel (self (griddata any_four depth_of_query two_ends
     (0, 50)%float (30, 40)%float (100, 110)%float (2, 1, 2) four_model).2) =
    Some {| shape := (2, 1, 2); buf := [0; 0; 50; 50]%float |}.
Proof. split; reflexivity. Qed.

Lemma smooth_preserves_shape_witness :
  ∃ v',
    (smooth three_weights 1%float gridded_model).1 = inr () ∧
    CrustModel.vel (self (smooth three_weights 1%float gridded_model).2) = Some v' ∧
    v' = gaussian_filter three_weights
           {| shape := (4, 1, 2); buf := [2; 1; 2; 3; 4; 3; 4; 3]%float |} 1%float ∧
    shape v' = (4, 1, 2) ∧
    (wf_array {| shape := (4, 1, 2); buf := [2; 1; 2; 3; 4; 3; 4; 3]%float |} → wf_array v').
Proof.
  apply (smooth_preserves_shape three_weights 1%float gridded_model
           {| shape := (4, 1, 2); buf := [2; 1; 2; 3; 4; 3; 4; 3]%float |}).
  reflexivity.
Defined.

(** Smoothing a grid: the weights 1/4, 1/2, 1/4 along each axis in turn, the
    edges reflected. *)
Example smooth_gridded :
  CrustModel.vel (self (smooth three_weights 1%float gridded_model).2) =
  Some {| shape := (4, 1, 2);
          buf := [1.875; 1.625; 2.5; 2.5; 3.375; 3.125; 3.75; 3.25]%float |}.
Proof. reflexivity. Qed.

(** ** More on [find_adjacent_point] *)

(** The search stays between its bounds, on any array. *)
Lemma binsearch_left_bounds {A} (less : A → A → bool) (arr : list A) (key : A)
    (min_idx max_idx : nat) :
  min_idx ≤ max_idx →
  min_idx ≤ binsearch_left less arr key min_idx max_idx ≤ max_idx.
Proof.
  funelim (binsearch_left less arr key min_idx max_idx);
    intros Hb; try clear Heqcall;
    pose proof (Nat.div_lt (max_idx - min_idx) 2) as Hhalf.
  - lia.
  - lia.
  - match goal with IH : _ → _ ≤ _ ≤ _ |- _ => specialize (IH ltac:(lia)) end. lia.
  - match goal with IH : _ → _ ≤ _ ≤ _ |- _ => specialize (IH ltac:(lia)) end. lia.
Qed.

(** The two indices that [find_adjacent_point] returns, on any array,
    sorted or not: each is a position of the array, the right one is the
    position after the left one, one of them is missing only at an end of
    the array, and both are missing only for the empty array. *)
Theorem find_adjacent_point_adjacent {A} (less : A → A → bool) (point : A) (array : list A) :
  ∃ l r,
    find_adjacent_point less point array = (l, r) ∧
    (∀ i, l = Some i → (0 ≤ i < Z.of_nat (length array))%Z) ∧
    (∀ k, r = Some k → (0 ≤ k < Z.of_nat (length array))%Z) ∧
    (∀ i k, l = Some i → r = Some k → k = (i + 1)%Z) ∧
    (l = None ∧ r = None ↔ array = []) ∧
    (l = None → array ≠ [] → r = Some 0%Z) ∧
    (r = None → array ≠ [] → l = Some (Z.of_nat (length array) - 1)%Z).
Proof.
  pose proof (binsearch_left_bounds less array point 0 (length array) ltac:(lia)) as Hb.
  unfold find_adjacent_point, where_none, searchsorted.
  generalize dependent (binsearch_left less array point 0 (length array)).
  intros index Hb. eexists _, _. split; [done|].
  destruct (Z.eqb_spec (Z.of_nat index) 0) as [H0|H0],
    (Z.eqb_spec (Z.of_nat index) (Z.of_nat (length array))) as [Hn|Hn];
    repeat split; intros; destruct_and?; simplify_eq;
    first [ done | lia | (f_equal; lia) | (apply nil_length_inv; lia)
          | (exfalso;
             match goal with H : _ ≠ [] |- _ => apply H; apply nil_length_inv; lia end)
          | (exfalso; simpl in *; lia) ].
Qed.

Section SearchSortedOrder.
Context {A : Type} (less : A → A → bool).
Hypothesis less_cotrans :
  ∀ x y z, less x z = true → less x y = true ∨ less y z = true.

(** On a sorted array the insertion index grows with the point. *)
Lemma searchsorted_le (array : list A) (p q : A) :
  sorted less array = true → less q p = false →
  searchsorted less array p ≤ searchsorted less array q.
Proof.
  intros Hs Hqp.
  destruct (searchsorted_spec less less_cotrans array p Hs) as (Hlp & Hbp & _).
  destruct (searchsorted_spec less less_cotrans array q Hs) as (_ & _ & Haq).
  destruct (decide (searchsorted less array p ≤ searchsorted less array q)) as [|Hgt];
    [done|]. exfalso.
  destruct (lookup_lt_is_Some_2 array (searchsorted less array q)) as [x Hx]; [lia|].
  specialize (Hbp (searchsorted less array q) x ltac:(lia) Hx).
  specialize (Haq (searchsorted less array q) x ltac:(lia) Hx).
  destruct (less_cotrans _ q _ Hbp); congruence.
Qed.

(** [find_adjacent_point] is monotone on a sorted array: for a point [q]
    that is not less than the point [p], the left and the right index of
    [q] are not before those of [p], and where [p] has no right index (it
    sorts after every element) [q] has none either. *)
Theorem find_adjacent_point_monotone (array : list A) (p q : A) :
  sorted less array = true → less q p = false →
  searchsorted less array p ≤ searchsorted less array q ∧
  (∀ i k, (find_adjacent_point less p array).1 = Some i →
          (find_adjacent_point less q array).1 = Some k → (i ≤ k)%Z) ∧
  (∀ i k, (find_adjacent_point less p array).2 = Some i →
          (find_adjacent_point less q array).2 = Some k → (i ≤ k)%Z) ∧
  ((find_adjacent_point less p array).2 = None →
   (find_adjacent_point less q array).2 = None) ∧
  ((find_adjacent_point less q array).1 = None →
   (find_adjacent_point less p array).1 = None).
Proof.
  intros Hs Hqp. pose proof (searchsorted_le array p q Hs Hqp) as Hle.
  pose proof (binsearch_left_bounds less array q 0 (length array) ltac:(lia)) as Hbq.
  fold (searchsorted less array q) in Hbq.
  split; [done|]. unfold find_adjacent_point, where_none. simpl.
  repeat match goal with |- context [Z.eqb ?a ?b] => destruct (Z.eqb_spec a b) end;
    repeat split; intros; simplify_eq; try done; try lia.
Qed.

Hypothesis less_asym : ∀ x y, less x y = true → less y x = false.

Lemma less_trans (x y z : A) : less x y = true → less y z = true → less x z = true.
Proof.
  intros Hxy Hyz. destruct (less_cotrans x z y Hxy) as [|Hzy]; [done|].
  apply less_asym in Hyz. congruence.
Qed.

Lemma increasing_sorted (array : list A) :
  increasing less array = true → sorted less array = true.
Proof.
  induction array as [|x [|y rest] IH]; [done|done|].
  intros [Hxy Hrest]%andb_prop. change (negb (less y x) && sorted less (y :: rest) = true).
  rewrite (less_asym x y Hxy). simpl. by apply IH.
Qed.

(** In a strictly increasing array every element is less than the later
    ones. *)
Lemma increasing_lookup (array : list A) (i j : nat) (x y : A) :
  increasing less array = true → i < j →
  array !! i = Some x → array !! j = Some y → less x y = true.
Proof.
  revert i j x y. induction array as [|a rest IH]; intros i j x y Hinc Hij Hi Hj; [done|].
  assert (increasing less rest = true) as Hrest.
  { destruct rest; [done|]. by apply andb_prop in Hinc as [_ ?]. }
  destruct i as [|i], j as [|j]; try lia.
  - simpl in Hi, Hj. injection Hi as ->.
    destruct rest as [|b rest']; [done|]. apply andb_prop in Hinc as [Hxb _].
    destruct j as [|j]; simpl in Hj.
    + by injection Hj as ->.
    + apply (less_trans x b y Hxb). apply (IH 0 (S j) b y); [done|lia|done|done].
  - simpl in Hi, Hj. apply (IH i j); [done|lia|done|done].
Qed.

(** A point that is an element of a strictly increasing array is its own
    right neighbour: [find_adjacent_point] returns the position of the
    element as the right index and the position before it, if there is one,
    as the left index. *)
Theorem find_adjacent_point_hit (array : list A) (k : nat) (point : A) :
  increasing less array = true → array !! k = Some point →
  find_adjacent_point less point array =
  (if decide (k = 0) then None else Some (Z.of_nat k - 1)%Z, Some (Z.of_nat k)).
Proof.
  intros Hinc Hk. pose proof (increasing_sorted array Hinc) as Hs.
  destruct (searchsorted_spec less less_cotrans array point Hs) as (Hle & Hbelow & Habove).
  assert (less point point = false) as Hirr.
  { destruct (less point point) eqn:Hpp; [|done]. by rewrite (less_asym _ _ Hpp) in Hpp. }
  pose proof (lookup_lt_Some _ _ _ Hk) as Hklen.
  assert (searchsorted less array point = k) as Hidx.
  { destruct (lt_eq_lt_dec (searchsorted less array point) k) as [[Hlt|Heq]|Hgt]; [|done|].
    - exfalso.
      destruct (lookup_lt_is_Some_2 array (searchsorted less array point)) as [x Hx]; [lia|].
      specialize (Habove (searchsorted less array point) x ltac:(lia) Hx).
      rewrite (increasing_lookup array _ k x point Hinc Hlt Hx Hk) in Habove. congruence.
    - exfalso. specialize (Hbelow k point Hgt Hk). congruence. }
  unfold find_adjacent_point, where_none. rewrite Hidx.
  destruct (Z.eqb_spec (Z.of_nat k) 0), (Z.eqb_spec (Z.of_nat k) (Z.of_nat (length array)));
    case_decide; try done; lia.
Qed.
End SearchSortedOrder.

Lemma np_less_asym (x y : float) : np_less x y = true → np_less y x = false.
Proof.
  intros Hxy. destruct (np_less y x) eqn:Hyx; [|done]. exfalso.
  apply np_less_rank in Hxy, Hyx. revert Hxy Hyx.
  generalize (sf_rank (Prim2SF x)) (sf_rank (Prim2SF y)).
  unfold rank_lt. intros [[a1 a2] a3] [[b1 b2] b3]. simpl. lia.
Qed.

Lemma find_adjacent_point_monotone_witness :
  searchsorted np_less [1.5; 3; 5]%float 2%float ≤
    searchsorted np_less [1.5; 3; 5]%float 4%float ∧
  (∀ i k, (find_adjacent_point np_less 2%float [1.5; 3; 5]%float).1 = Some i →
          (find_adjacent_point np_less 4%float [1.5; 3; 5]%float).1 = Some k → (i ≤ k)%Z) ∧
  (∀ i k, (find_adjacent_point np_less 2%float [1.5; 3; 5]%float).2 = Some i →
          (find_adjacent_point np_less 4%float [1.5; 3; 5]%float).2 = Some k → (i ≤ k)%Z) ∧
  ((find_adjacent_point np_less 2%float [1.5; 3; 5]%float).2 = None →
   (find_adjacent_point np_less 4%float [1.5; 3; 5]%float).2 = None) ∧
  ((find_adjacent_point np_less 4%float [1.5; 3; 5]%float).1 = None →
   (find_adjacent_point np_less 2%float [1.5; 3; 5]%float).1 = None).
Proof.
  apply (find_adjacent_point_monotone np_less np_less_cotrans
           [1.5; 3; 5]%float 2%float 4%float); reflexivity.
Defined.

Lemma find_adjacent_point_hit_witness :
  find_adjacent_point np_less 3%float [1.5; 3; 5]%float =
  (if decide (1 = 0) then None else Some (Z.of_nat 1 - 1)%Z, Some (Z.of_nat 1)).
Proof.
  apply (find_adjacent_point_hit np_less np_less_cotrans np_less_asym
           [1.5; 3; 5]%float 1 3%float); reflexivity.
Defined.

Lemma all_less_nan (array : list float) :
  forallb (λ x, negb (is_nan x)) array = true →
  ∀ x, x ∈ array → np_less x nan = true.
Proof.
  intros Hall x Hx%list_elem_of_In. rewrite forallb_forall in Hall.
  specialize (Hall x Hx). unfold np_less.
  change (is_nan nan) with true. rewrite Hall. by rewrite orb_true_r.
Qed.

(** A NaN query point sorts after every number: on a sorted array of
    numbers [find_adjacent_point] gives it the last position as the left
    index (none for the empty array) and no right index. *)
Theorem find_adjacent_point_nan (array : list float) :
  sorted np_less array = true →
  forallb (λ x, negb (is_nan x)) array = true →
  find_adjacent_point np_less nan array =
  (if decide (array = []) then None else Some (Z.of_nat (length array) - 1)%Z, None).
Proof.
  intros Hs Hnum.
  destruct (searchsorted_spec np_less np_less_cotrans array nan Hs) as (Hle & _ & Habove).
  assert (searchsorted np_less array nan = length array) as Hidx.
  { destruct (decide (searchsorted np_less array nan = length array)) as [|Hne]; [done|].
    exfalso.
    destruct (lookup_lt_is_Some_2 array (searchsorted np_less array nan)) as [x Hx]; [lia|].
    specialize (Habove (searchsorted np_less array nan) x ltac:(lia) Hx).
    rewrite (all_less_nan array Hnum x) in Habove; [done|].
    apply list_elem_of_lookup. eauto. }
  unfold find_adjacent_point, where_none. rewrite Hidx, Z.eqb_refl.
  destruct array as [|a rest]; [done|].
  rewrite decide_False by done.
  destruct (Z.eqb_spec (Z.of_nat (length (a :: rest))) 0) as [H0|_]; [simpl in H0; lia|done].
Qed.

Lemma find_adjacent_point_nan_witness :
  find_adjacent_point np_less nan [1.5; 3; 5]%float =
  (if decide ([1.5; 3; 5]%float = []) then None else Some (Z.of_nat 3 - 1)%Z, None).
Proof.
  apply (find_adjacent_point_nan [1.5; 3; 5]%float); reflexivity.
Defined.

(** ** More on the hole-filling pass *)

(** The pass writes only where there was a NaN: an entry that holds a number
    is after the pass what it was before, and a NaN of the result was a NaN
    of the input. *)
Theorem fill_holes_keeps_defined (tt pp : list float) (g g' : ndarray) :
  wf_array g →
  fill_holes tt pp g = (inr (), g') →
  ∀ d i j, d < depth_count g → i < (shape g).1.2 → j < (shape g).2 →
    (is_nan (get g d i j) = false → get g' d i j = get g d i j) ∧
    (is_nan (get g' d i j) = true → is_nan (get g d i j) = true).
Proof.
  intros Hwf Hrun d i j Hd Hi Hj.
  destruct (fill_holes_spec tt pp g Hwf) as (r & fin & Hrun' & Hres).
  rewrite Hrun in Hrun'. injection Hrun' as <- <-.
  destruct Hres as [(_ & _ & _ & _ & Hget)|(? & _)]; [|done].
  rewrite Hget by done. case_decide; [|done].
  unfold filled_value.
  destruct (first_defined g i j) as [f|] eqn:Hf; [|done].
  destruct (last_defined g i j) as [l|] eqn:Hl; [|done].
  pose proof (first_defined_spec g i j f Hf) as (_ & Hfd & Hfb).
  pose proof (last_defined_spec g i j l Hl) as (_ & Hld & Hla).
  repeat case_decide.
  - rewrite Hfb by done. split; [done|]. by rewrite Hfd.
  - rewrite Hla by done. split; [done|]. by rewrite Hld.
  - done.
Qed.

Lemma fill_holes_keeps_defined_witness :
  wf_array ragged_columns ∧
  (is_nan (get ragged_columns 1 0 0) = false →
   get {| shape := (4, 1, 2); buf := [2; 1; 2; 3; 4; 3; 4; 3]%float |} 1 0 0 =
   get ragged_columns 1 0 0) ∧
  (is_nan (get {| shape := (4, 1, 2); buf := [2; 1; 2; 3; 4; 3; 4; 3]%float |} 1 0 0) = true →
   is_nan (get ragged_columns 1 0 0) = true).
Proof.
  split; [reflexivity|].
  apply (fill_holes_keeps_defined [0%float] [0; 0]%float ragged_columns
           {| shape := (4, 1, 2); buf := [2; 1; 2; 3; 4; 3; 4; 3]%float |});
    [reflexivity|reflexivity|vm_compute; lia..].
Defined.

(** An array whose visited columns hold numbers at their first and at their
    last depth, so in particular an array without NaN, is returned as it
    is. *)
Theorem fill_holes_no_holes (tt pp : list float) (g : ndarray) :
  0 < depth_count g →
  (∀ i j, i < length tt → j < length pp →
          i < (shape g).1.2 ∧ j < (shape g).2 ∧
          is_nan (get g 0 i j) = false ∧
          is_nan (get g (depth_count g - 1) i j) = false) →
  fill_holes tt pp g = (inr (), g).
Proof.
  intros Hn Hends. unfold fill_holes.
  apply for_each_fixed. intros [i t] [_ Hi]%enumerate_from_elem.
  apply for_each_fixed. intros [j p] [_ Hj]%enumerate_from_elem.
  apply lookup_lt_Some in Hi, Hj. rewrite Nat.sub_0_r in Hi, Hj.
  destruct (Hends i j Hi Hj) as (? & ? & ? & ?).
  by apply fill_column_fixed.
Qed.

Lemma fill_holes_no_holes_witness :
  fill_holes [0%float] [0; 0]%float
    {| shape := (4, 1, 2); buf := [2; 1; 2; 3; 4; 3; 4; 3]%float |} =
  (inr (), {| shape := (4, 1, 2); buf := [2; 1; 2; 3; 4; 3; 4; 3]%float |}).
Proof.
  apply (fill_holes_no_holes [0%float] [0; 0]%float
           {| shape := (4, 1, 2); buf := [2; 1; 2; 3; 4; 3; 4; 3]%float |}).
  - vm_compute. lia.
  - intros i j Hi Hj. simpl in Hi, Hj.
    destruct i as [|i]; [|lia]. destruct j as [|[|j]]; [| |lia];
      (split; [vm_compute; lia|split; [vm_compute; lia|split; reflexivity]]).
Defined.

(** The pass at the edges of its input: over an empty latitude or longitude
    axis it visits no column and returns the array as it is, whatever it
    holds; on an array of no depths it raises [IndexError] at the first
    column, as no column holds a number. *)
Theorem fill_holes_degenerate :
  (∀ pp g, fill_holes [] pp g = (inr (), g)) ∧
  (∀ tt g, fill_holes tt [] g = (inr (), g)) ∧
  (∀ t tts p pps n1 n2 b,
     fill_holes (t :: tts) (p :: pps) {| shape := (0, n1, n2); buf := b |} =
     (inl IndexError, {| shape := (0, n1, n2); buf := b |})).
Proof.
  split; [done|]. split.
  - intros tt g. unfold fill_holes. apply for_each_fixed. by intros [i t] _.
  - intros t tts p pps n1 n2 b. unfold fill_holes, enumerate.
    cbn [enumerate_from]. rewrite !for_each_cons.
    rewrite fill_column_fail; [done|].
    intros (_ & _ & d & Hd & _). unfold depth_count in Hd. simpl in Hd. lia.
Qed.

(** ** More on [model2points] *)

Lemma run_raise {S A} (e : exn) (s : S) : (raise e : M S A) s = (inl e, s).
Proof. reflexivity. Qed.

Lemma run_subscript_lookup {S A} (l : list A) (i : nat) (s : S) :
  subscript l i s = match l !! i with
                    | Some x => (inr x, s)
                    | None => (inl IndexError, s)
                    end.
Proof. unfold subscript. by destruct (l !! i). Qed.

(** A loop whose turns keep an invariant of the state, raise only
    exceptions of one kind and return only on items of one kind: so does the
    loop, and when it returns all its items were of that kind. *)
Lemma for_each_outcome {S A} (I : S → Prop) (E : exn → Prop) (Ok : A → Prop)
    (l : list A) (body : A → M S unit) (s : S) :
  I s →
  (∀ x s, x ∈ l → I s →
     I (body x s).2 ∧ (∀ e, (body x s).1 = inl e → E e) ∧ ((body x s).1 = inr () → Ok x)) →
  I (for_each l body s).2 ∧
  (∀ e, (for_each l body s).1 = inl e → E e) ∧
  ((for_each l body s).1 = inr () → ∀ x, x ∈ l → Ok x).
Proof.
  revert s. induction l as [|x l IH]; intros s Hs Hstep.
  - simpl. split; [done|]. split; [done|]. intros _ x Hx. by apply elem_of_nil in Hx.
  - rewrite for_each_cons.
    destruct (Hstep x s ltac:(by left) Hs) as (Hs' & He & Hok).
    destruct (body x s) as [[e|[]] s']; simpl in *.
    + split; [done|]. split; [done|]. done.
    + destruct (IH s' Hs') as (Hfin & Hefin & Hokfin).
      { intros y t Hy. apply Hstep. by right. }
      split; [done|]. split; [done|].
      intros Hrun y [->|Hy]%elem_of_cons; [by apply Hok|by apply Hokfin].
Qed.

Lemma has_cells_wf_source data lat lon :
  has_cells data (length lat) (length lon) → wf_source data lat lon = true.
Proof.
  intros Hcells. unfold wf_source. apply forallb_forall. intros i Hi%in_seq.
  apply forallb_forall. intros j Hj%in_seq.
  destruct (Hcells i j) as (cell & -> & Hlen); [lia|lia|]. by apply Nat.leb_le.
Qed.

(** Every outcome of [model2points]: the state it leaves differs from the
    one it found in the point container and the trace only; it raises
    nothing but [IndexError]; and it returns only on a well-formed source
    model. *)
Lemma model2points_outcome (w : world) :
  (∃ pts tr, (model2points w).2 = with_points w pts tr) ∧
  (∀ e, (model2points w).1 = inl e → e = IndexError) ∧
  ((model2points w).1 = inr () →
   has_cells (CrustModel.mod_data (self w))
     (length (CrustModel.mod_lat (self w))) (length (CrustModel.mod_lon (self w)))).
Proof.
  unfold model2points.
  rewrite run_bind. unfold np_empty_rows. rewrite run_bind, run_emit, run_ret.
  rewrite run_bind, run_assign, run_bind, run_field.
  cbn [self trace CrustModel.mod_lat CrustModel.set_points].
  change ({| self := _; trace := _ |}) with (with_points w [] (trace w ++ [Alloc 0])).
  set (I := λ w' : world, ∃ pts tr, w' = with_points w pts tr).
  set (E := λ e : exn, e = IndexError).
  set (data := CrustModel.mod_data (self w)).
  set (lon := CrustModel.mod_lon (self w)).
  match goal with |- context [for_each ?l ?b ?s] =>
    destruct (for_each_outcome I E
                (λ '(i, _), ∀ j, j < length lon →
                   ∃ cell, cell_at data i j = Some cell ∧
                           length (depth cell) ≤ length (vp cell)) l b s)
      as (Hframe & Herr & Hok)
  end.
  { by exists [], (trace w ++ [Alloc 0]). }
  { (* a turn of the loop over the latitudes *)
    intros [i la] s _ (pts & tr & ->).
    rewrite run_bind, run_field.
    cbn [with_points self CrustModel.mod_lon CrustModel.set_points]. fold lon.
    match goal with |- context [for_each ?l ?b ?s] =>
      destruct (for_each_outcome I E
                  (λ '(j, _), ∃ cell, cell_at data i j = Some cell ∧
                                      length (depth cell) ≤ length (vp cell)) l b s)
        as (Hframe & Herr & Hok)
    end.
    { by exists pts, tr. }
    { (* a turn of the loop over the longitudes *)
      intros [j lo] s _ (pts' & tr' & ->).
      rewrite run_bind, run_field.
      cbn [with_points self CrustModel.mod_data CrustModel.set_points]. fold data.
      rewrite run_bind, run_subscript_lookup.
      destruct (data !! i) as [data_i|] eqn:Hdata.
      2:{ simpl. split; [by exists pts', tr'|]. split; [|done]. by intros e [= <-]. }
      rewrite run_bind, run_subscript_lookup.
      destruct (data_i !! j) as [cell|] eqn:Hcell.
      2:{ simpl. split; [by exists pts', tr'|]. split; [|done]. by intros e [= <-]. }
      cbv zeta.
      match goal with |- context [for_each ?l ?b ?s] =>
        destruct (for_each_outcome I E (λ '(k, _), is_Some (vp cell !! k)) l b s)
          as (Hframe & Herr & Hok)
      end.
      { by exists pts', tr'. }
      { (* a turn of the loop over the samples *)
        intros [k dep] s _ (pts'' & tr'' & ->).
        rewrite run_bind, (run_attr _ _ pts'') by done.
        rewrite run_bind, run_subscript_lookup.
        destruct (vp cell !! k) as [v|] eqn:Hv.
        - rewrite run_bind, run_np_vstack, run_assign. simpl.
          split; [|split; [done|by eauto]].
          by exists (pts'' ++ [(dep, la, lo, v)]), (tr'' ++ [Alloc (S (length pts''))]).
        - simpl. split; [by exists pts'', tr''|]. split; [|done]. by intros e [= <-]. }
      split; [done|]. split; [done|]. intros Hrun. specialize (Hok Hrun).
      exists cell. split; [unfold cell_at; by rewrite Hdata|].
      destruct (decide (length (depth cell) ≤ length (vp cell))) as [|Hgt]; [done|]. exfalso.
      destruct (lookup_lt_is_Some_2 (depth cell) (length (vp cell))) as [dep Hdep]; [lia|].
      destruct (Hok (length (vp cell), dep)) as [v Hv].
      { apply enumerate_from_elem. rewrite Nat.sub_0_r. split; [lia|done]. }
      apply lookup_lt_Some in Hv. lia. }
    split; [done|]. split; [done|]. intros Hrun j Hj. specialize (Hok Hrun).
    destruct (lookup_lt_is_Some_2 lon j Hj) as [lo Hlo].
    apply (Hok (j, lo)). apply enumerate_from_elem. rewrite Nat.sub_0_r. split; [lia|done]. }
  split; [done|]. split; [done|]. intros Hrun i j Hi Hj. specialize (Hok Hrun).
  destruct (lookup_lt_is_Some_2 (CrustModel.mod_lat (self w)) i Hi) as [la Hla].
  apply (Hok (i, la)); [|done].
  apply enumerate_from_elem. rewrite Nat.sub_0_r. split; [lia|done].
Qed.

(** [model2points] returns exactly on the well-formed source models (a cell
    for every pair of a latitude and a longitude index, a velocity for every
    depth of a cell); on the others a subscript is out of range and it raises
    [IndexError], and nothing else. *)
Theorem model2points_verdict (w : world) :
  ((model2points w).1 = inr () ↔
   wf_source (CrustModel.mod_data (self w)) (CrustModel.mod_lat (self w))
     (CrustModel.mod_lon (self w)) = true) ∧
  ((model2points w).1 = inr () ∨ (model2points w).1 = inl IndexError).
Proof.
  destruct (model2points_outcome w) as (_ & Herr & Hok). split.
  - split.
    + intros Hrun. by apply has_cells_wf_source, Hok.
    + intros Hwf. by rewrite (model2points_run w Hwf).
  - destruct (model2points w).1 as [e|[]]; [right|by left]. f_equal. by apply Herr.
Qed.

(** [model2points] assigns [points] and nothing else, whether it returns or
    raises: the source arrays, the axes and the output arrays are after the
    call what they were before, and [points] is assigned. *)
Theorem model2points_frame (w : world) :
  let o := self w in
  let o' := self (model2points w).2 in
  is_Some (CrustModel.points o') ∧
  CrustModel.mod_data o' = CrustModel.mod_data o ∧
  CrustModel.mod_lat o' = CrustModel.mod_lat o ∧
  CrustModel.mod_lon o' = CrustModel.mod_lon o ∧
  CrustModel.dd o' = CrustModel.dd o ∧
  CrustModel.tt o' = CrustModel.tt o ∧
  CrustModel.pp o' = CrustModel.pp o ∧
  CrustModel.eta o' = CrustModel.eta o ∧
  CrustModel.xi o' = CrustModel.xi o ∧
  CrustModel.zeta o' = CrustModel.zeta o ∧
  CrustModel.vel o' = CrustModel.vel o.
Proof.
  destruct (model2points_outcome w) as ((pts & tr & ->) & _). simpl.
  split; [by eexists|]. repeat split.
Qed.

(** Running [model2points] again does not stack the rows a second time: the
    container is emptied first, so the second run leaves the object as the
    first one left it. *)
Theorem model2points_again (w : world) :
  wf_source (CrustModel.mod_data (self w)) (CrustModel.mod_lat (self w))
    (CrustModel.mod_lon (self w)) = true →
  (model2points (model2points w).2).1 = inr () ∧
  self (model2points (model2points w).2).2 = self (model2points w).2.
Proof.
  intros Hwf. rewrite (model2points_run w Hwf). cbn [snd].
  rewrite model2points_run by done. done.
Qed.

Lemma model2points_again_witness :
  wf_source single_cell single_lat single_lon = true ∧
  (model2points (model2points single_loaded).2).1 = inr () ∧
  self (model2points (model2points single_loaded).2).2 = self (model2points single_loaded).2.
Proof.
  split; [reflexivity|]. apply (model2points_again single_loaded). reflexivity.
Defined.

Section MorePipelineFacts.
Variable non_coplanar : point3 → point3 → point3 → point3 → bool.
Variable linear_interpolant : list point3 → list float → point3 → float.
Variable axis_sample : float → float → nat → nat → float.
Variable gaussian_kernel1d : float → list float.


(** The output attributes are assigned together: an object fresh from
    [__init__] has none of [eta], [xi], [zeta], [vel], and each method leaves
    an object with none or all of them with none or all of them, whether it
    returns or raises. *)
Theorem outputs_assigned_together :
  (∀ data lat lon, outputs_unset (self (init data lat lon).2)) ∧
  (∀ w, outputs_all_or_none (self w) → outputs_all_or_none (self (model2points w).2)) ∧
  (∀ min_max_dep min_max_lat min_max_lon n_rtp w,
     outputs_all_or_none (self w) →
     outputs_all_or_none
       (self (griddata non_coplanar linear_interpolant axis_sample
                min_max_dep min_max_lat min_max_lon n_rtp w).2)) ∧
  (∀ sigma w, outputs_all_or_none (self w) →
     outputs_all_or_none (self (smooth gaussian_kernel1d sigma w).2)).
Proof.
  assert (∀ w, outputs_all_or_none (self w) → outputs_all_or_none (self (model2points w).2))
    as Hm2p.
  { intros w Hw. destruct (model2points_outcome w) as ((pts & tr & ->) & _). exact Hw. }
  split; [|split; [done|split]].
  - intros data lat lon. unfold init.
    destruct (model2points_outcome
                {| self := CrustModel.loaded data lat lon; trace := [] |})
      as ((pts & tr & ->) & _). by repeat split.
  - intros mmd mmt mmp n_rtp w Hw. rewrite griddata_run.
    destruct (CrustModel.points (self w)); [|exact Hw].
    destruct (scipy_griddata _ _ _ _ _ _ _); [exact Hw|].
    destruct (fill_holes _ _ _) as [[e|[]] filled]; [exact Hw|].
    right. simpl. repeat split; by eexists.
  - intros sigma w Hw.
    unfold smooth, mbind, M_bind, bind, emit, assign, modify, attr. simpl.
    destruct (CrustModel.vel (self w)) as [v|] eqn:Hv; simpl; [|exact Hw].
    destruct Hw as [(_ & _ & _ & Hnone)|(He & Hx & Hz & _)]; [congruence|].
    right. split; [done|]. split; [done|]. split; [done|]. by eexists.
Qed.

(** Smoothing needs a grid: on an object fresh from [__init__], whatever the
    source model, [smooth] raises [AttributeError] and leaves the object as
    it is. *)
Theorem smooth_before_griddata (data : list (list profile)) (lat lon : list float)
    (sigma : float) :
  (smooth gaussian_kernel1d sigma (init data lat lon).2).1 = inl AttributeError ∧
  self (smooth gaussian_kernel1d sigma (init data lat lon).2).2 = self (init data lat lon).2.
Proof.
  unfold init.
  destruct (model2points_outcome {| self := CrustModel.loaded data lat lon; trace := [] |})
    as ((pts & tr & ->) & _). done.
Qed.

(** After a [griddata] that returned, [smooth] returns too, for every
    spread, and the output model is still four arrays of the shape of the
    counts, [eta], [xi] and [zeta] of zeros. *)
Theorem smooth_after_griddata
    (min_max_dep min_max_lat min_max_lon : float * float) (n_rtp : nat * nat * nat)
    (sigma : float) (w : world) :
  let gridded := griddata non_coplanar linear_interpolant axis_sample
                   min_max_dep min_max_lat min_max_lon n_rtp w in
  gridded.1 = inr () →
  (smooth gaussian_kernel1d sigma gridded.2).1 = inr () ∧
  output_model n_rtp (self (smooth gaussian_kernel1d sigma gridded.2).2).
Proof.
  intros gridded. subst gridded. rewrite griddata_run.
  pose proof (init_axis_lengths axis_sample min_max_dep min_max_lat min_max_lon n_rtp) as Hlen.
  cbv zeta in Hlen.
  destruct (CrustModel.points (self w)) as [points|]; [|done].
  destruct (scipy_griddata _ _ _ _ _ _ _) as [e|grid_vp] eqn:Hgrid; [done|].
  destruct (scipy_griddata_shape _ _ _ _ _ _ _ _ Hgrid) as [Hsh Hwf].
  rewrite Hlen in Hsh.
  match goal with |- context [fill_holes ?a ?b grid_vp] =>
    destruct (fill_holes_spec a b grid_vp Hwf) as (r & fin & Hfill & Hres) end.
  rewrite Hfill.
  destruct Hres as [(-> & _ & Hshf & Hwff & _)|(-> & _)]; [|done].
  intros _. simpl. split; [done|].
  destruct (gaussian_filter_shape gaussian_kernel1d fin sigma) as [Hshs Hwfs].
  exists (np_zeros n_rtp), (np_zeros n_rtp), (np_zeros n_rtp),
    (gaussian_filter gaussian_kernel1d fin sigma).
  rewrite Hshs, Hshf, Hsh.
  repeat split; first [done | apply np_zeros_wf | apply np_zeros_all_zero | by apply Hwfs].
Qed.
End MorePipelineFacts.

Lemma smooth_after_griddata_witness :
  (griddata any_four depth_of_query two_ends
     (0, 50)%float (30, 40)%float (100, 110)%float (2, 1, 2) four_model).1 = inr () ∧
  (smooth three_weights 5%float
     (griddata any_four depth_of_query two_ends
        (0, 50)%float (30, 40)%float (100, 110)%float (2, 1, 2) four_model).2).1 = inr () ∧
  output_model (2, 1, 2)
    (self (smooth three_weights 5%float
             (griddata any_four depth_of_query two_ends
                (0, 50)%float (30, 40)%float (100, 110)%float (2, 1, 2) four_model).2).2).
Proof.
  split; [reflexivity|].
  apply (smooth_after_griddata any_four depth_of_query two_ends three_weights
           (0, 50)%float (30, 40)%float (100, 110)%float (2, 1, 2) 5%float four_model).
  reflexivity.
Defined.

(** ** [write] and the script *)

Lemma run_io_bind {A B} (c : IO A) (k : A → IO B) (s : session) :
  (c ≫= k) s = match c s with
               | (inr a, s') => k a s'
               | (inl e, s') => (inl e, s')
               end.
Proof. reflexivity. Qed.


Lemma run_on_object_attr {A} (f : CrustModel.t → option A) (s : session) :
  on_object (attr f) s = match f (self (object s)) with
                         | Some a => (inr a, s)
                         | None => (inl (Python AttributeError), s)
                         end.
Proof.
  unfold on_object, attr. destruct s as [w d]. simpl. by destruct (f (self w)).
Qed.

(** Creating a dataset in a file that has none of that name. *)
Lemma run_create_dataset (f name : string) (data : ndarray) (w : world)
    (d : gmap string (gmap string ndarray)) (file : gmap string ndarray) :
  file !! name = None →
  create_dataset f name data {| object := w; disk := <[f := file]> d |} =
  (inr (), {| object := w; disk := <[f := <[name := data]> file]> d |}).
Proof.
  intros Hnone. unfold create_dataset. simpl.
  rewrite lookup_insert_eq. simpl. rewrite Hnone. by rewrite insert_insert_eq.
Qed.

Section ScriptFacts.
Variable can_create : string → bool.

(** [write] on an object that has its four output arrays. *)
Lemma write_run (fname : string) (w : world) (d : gmap string (gmap string ndarray))
    (e x z v : ndarray) :
  can_create fname = true →
  CrustModel.eta (self w) = Some e → CrustModel.xi (self w) = Some x →
  CrustModel.zeta (self w) = Some z → CrustModel.vel (self w) = Some v →
  write can_create fname {| object := w; disk := d |} =
  (inr (), {| object := w; disk := <[fname := output_file e x z v]> d |}).
Proof.
  intros Hcan He Hx Hz Hv. unfold write.
  rewrite run_io_bind. unfold h5py_File. rewrite Hcan. cbn [object disk].
  rewrite run_io_bind, run_on_object_attr. cbn [object]. rewrite He.
  rewrite run_io_bind, run_create_dataset by apply lookup_empty.
  rewrite run_io_bind, run_on_object_attr. cbn [object]. rewrite Hx.
  rewrite run_io_bind, run_create_dataset
    by (rewrite lookup_insert_ne by done; apply lookup_empty).
  rewrite run_io_bind, run_on_object_attr. cbn [object]. rewrite Hz.
  rewrite run_io_bind, run_create_dataset
    by (rewrite !lookup_insert_ne by done; apply lookup_empty).
  rewrite run_io_bind, run_on_object_attr. cbn [object]. rewrite Hv.
  rewrite run_create_dataset
    by (rewrite !lookup_insert_ne by done; apply lookup_empty).
  reflexivity.
Qed.

Lemma output_file_lookup (e x z v : ndarray) (name : string) (data : ndarray) :
  output_file e x z v !! name = Some data ↔
  (name = "eta" ∧ data = e) ∨ (name = "xi" ∧ data = x) ∨
  (name = "zeta" ∧ data = z) ∨ (name = "vel" ∧ data = v).
Proof.
  unfold output_file.
  destruct (decide (name = "vel")) as [->|Hvel];
    [rewrite lookup_insert_eq|rewrite lookup_insert_ne by done;
     destruct (decide (name = "zeta")) as [->|Hzeta];
       [rewrite lookup_insert_eq|rewrite lookup_insert_ne by done;
        destruct (decide (name = "xi")) as [->|Hxi];
          [rewrite lookup_insert_eq|rewrite lookup_insert_ne by done;
           destruct (decide (name = "eta")) as [->|Heta];
             [rewrite lookup_insert_eq|rewrite lookup_insert_ne, lookup_empty by done]]]];
    (split;
     [ intros ?; simplify_eq; auto 10
     | intros H; repeat destruct H as [H|H]; destruct H; simplify_eq; done ]).
Qed.

(** [write] on an object that has its four output arrays, to a file that can
    be created: it returns, and the file holds the four datasets [eta],
    [xi], [zeta] and [vel] with the object's arrays and nothing else,
    whatever it held before; the other files and the object are as they
    were. No dataset name is taken when it is created. *)
Theorem write_outputs (fname : string) (s : session) (e x z v : ndarray) :
  can_create fname = true →
  CrustModel.eta (self (object s)) = Some e →
  CrustModel.xi (self (object s)) = Some x →
  CrustModel.zeta (self (object s)) = Some z →
  CrustModel.vel (self (object s)) = Some v →
  write can_create fname s =
    (inr (), {| object := object s; disk := <[fname := output_file e x z v]> (disk s) |}) ∧
  (∀ name data,
     output_file e x z v !! name = Some data ↔
     (name = "eta" ∧ data = e) ∨ (name = "xi" ∧ data = x) ∨
     (name = "zeta" ∧ data = z) ∨ (name = "vel" ∧ data = v)) ∧
  (∀ other, other ≠ fname →
     (<[fname := output_file e x z v]> (disk s)) !! other = disk s !! other).
Proof.
  intros Hcan He Hx Hz Hv. destruct s as [w d]. simpl in *.
  split; [by apply write_run|]. split; [apply output_file_lookup|].
  intros other Hne. by rewrite lookup_insert_ne.
Qed.

(** [write] on an object without output arrays, as it is before [griddata]
    has returned: it raises [AttributeError], but only after it has opened
    the file, which is left empty: what the file held before is gone. *)
Theorem write_before_griddata (fname : string) (s : session) :
  can_create fname = true →
  outputs_unset (self (object s)) →
  write can_create fname s =
  (inl (Python AttributeError),
   {| object := object s; disk := <[fname := ∅]> (disk s) |}).
Proof.
  intros Hcan (He & _). destruct s as [w d]. simpl in *. unfold write.
  rewrite run_io_bind. unfold h5py_File. rewrite Hcan. cbn [object disk].
  rewrite run_io_bind, run_on_object_attr. cbn [object]. by rewrite He.
Qed.
End ScriptFacts.

Lemma write_outputs_witness :
  write (λ _, true) "model.h5" gridded_session =
    (inr (),
     {| object := object gridded_session;
        disk := <["model.h5" :=
                    output_file (np_zeros (2, 1, 2)) (np_zeros (2, 1, 2)) (np_zeros (2, 1, 2))
                      {| shape := (2, 1, 2); buf := [0; 0; 50; 50]%float |}]>
                  (disk gridded_session) |}) ∧
  (∀ name data,
     output_file (np_zeros (2, 1, 2)) (np_zeros (2, 1, 2)) (np_zeros (2, 1, 2))
       {| shape := (2, 1, 2); buf := [0; 0; 50; 50]%float |} !! name = Some data ↔
     (name = "eta" ∧ data = np_zeros (2, 1, 2)) ∨ (name = "xi" ∧ data = np_zeros (2, 1, 2)) ∨
     (name = "zeta" ∧ data = np_zeros (2, 1, 2)) ∨
     (name = "vel" ∧ data = {| shape := (2, 1, 2); buf := [0; 0; 50; 50]%float |})) ∧
  (∀ other, other ≠ "model.h5" →
     (<["model.h5" :=
          output_file (np_zeros (2, 1, 2)) (np_zeros (2, 1, 2)) (np_zeros (2, 1, 2))
            {| shape := (2, 1, 2); buf := [0; 0; 50; 50]%float |}]>
        (disk gridded_session)) !! other = disk gridded_session !! other).
Proof.
  apply (write_outputs (λ _, true) "model.h5" gridded_session); reflexivity.
Defined.

Lemma write_before_griddata_witness :
  write (λ _, true) "model.h5" fresh_session =
  (inl (Python AttributeError),
   {| object := object fresh_session; disk := <["model.h5" := ∅]> (disk fresh_session) |}).
Proof.
  apply (write_before_griddata (λ _, true) "model.h5" fresh_session);
    [reflexivity|repeat split].
Defined.

Section ScriptOutcome.
Variable can_create : string → bool.
Variable non_coplanar : point3 → point3 → point3 → point3 → bool.
Variable linear_interpolant : list point3 → list float → point3 → float.
Variable axis_sample : float → float → nat → nat → float.
Variable gaussian_kernel1d : float → list float.




End ScriptOutcome.

(** After a pass that returned, every visited column holds a number at the
    first and at the last depth index: the top and the bottom layer of the
    grid have no NaN. *)
Theorem fill_holes_ends_defined (tt pp : list float) (g g' : ndarray) :
  wf_array g →
  fill_holes tt pp g = (inr (), g') →
  ∀ i j, i < length tt → j < length pp →
    0 < depth_count g' ∧
    is_nan (get g' 0 i j) = false ∧
    is_nan (get g' (depth_count g' - 1) i j) = false.
Proof.
  intros Hwf Hrun i j Hi Hj.
  destruct (fill_holes_spec tt pp g Hwf) as (r & fin & Hrun' & Hres).
  rewrite Hrun in Hrun'. injection Hrun' as <- <-.
  destruct Hres as [(_ & Hok & Hsh & _ & Hget)|(? & _)]; [|done].
  destruct (Hok i j Hi Hj) as (Hin & Hjn & d0 & Hd0 & Hn0).
  destruct (defined_exists g i j d0 Hd0 Hn0) as (f & l & Hf & Hl).
  pose proof (first_defined_spec g i j f Hf) as (Hfn & Hfd & _).
  pose proof (last_defined_spec g i j l Hl) as (Hln & Hld & _).
  pose proof (first_le_last g i j f l Hf Hl) as Hfl.
  assert (depth_count g' = depth_count g) as -> by (unfold depth_count; by rewrite Hsh).
  split; [lia|]. split.
  - rewrite Hget by (done || lia). rewrite decide_True by done.
    unfold filled_value. rewrite Hf, Hl.
    repeat case_decide; first [done | lia | by replace f with 0 in Hfd by lia].
  - rewrite Hget by (done || lia). rewrite decide_True by done.
    unfold filled_value. rewrite Hf, Hl.
    repeat case_decide; first [done | lia | by replace (depth_count g - 1) with l by lia].
Qed.

Lemma fill_holes_ends_defined_witness :
  wf_array ragged_columns ∧
  0 < depth_count {| shape := (4, 1, 2); buf := [2; 1; 2; 3; 4; 3; 4; 3]%float |} ∧
  is_nan (get {| shape := (4, 1, 2); buf := [2; 1; 2; 3; 4; 3; 4; 3]%float |} 0 0 1) = false ∧
  is_nan (get {| shape := (4, 1, 2); buf := [2; 1; 2; 3; 4; 3; 4; 3]%float |}
            (depth_count {| shape := (4, 1, 2); buf := [2; 1; 2; 3; 4; 3; 4; 3]%float |} - 1)
            0 1) = false.
Proof.
  split; [reflexivity|].
  apply (fill_holes_ends_defined [0%float] [0; 0]%float ragged_columns
           {| shape := (4, 1, 2); buf := [2; 1; 2; 3; 4; 3; 4; 3]%float |});
    [reflexivity|reflexivity|simpl; lia|simpl; lia].
Defined.

Section GriddataAgain.
Variable non_coplanar : point3 → point3 → point3 → point3 → bool.
Variable linear_interpolant : list point3 → list float → point3 → float.
Variable axis_sample : float → float → nat → nat → float.
Variable gaussian_kernel1d : float → list float.

(** [griddata] computes its outputs from the points and its arguments alone:
    called again with the same arguments after a [smooth], it returns again
    and puts the object back into the state the first call left, so the
    smoothing is gone. *)
Theorem griddata_discards_smoothing
    (min_max_dep min_max_lat min_max_lon : float * float) (n_rtp : nat * nat * nat)
    (sigma : float) (w : world) :
  let gridded := griddata non_coplanar linear_interpolant axis_sample
                   min_max_dep min_max_lat min_max_lon n_rtp w in
  let again := griddata non_coplanar linear_interpolant axis_sample
                 min_max_dep min_max_lat min_max_lon n_rtp
                 (smooth gaussian_kernel1d sigma gridded.2).2 in
  gridded.1 = inr () →
  again.1 = inr () ∧ self again.2 = self gridded.2.
Proof.
  intros gridded again. subst gridded again. rewrite (griddata_run _ _ _ _ _ _ _ w).
  destruct (CrustModel.points (self w)) as [points|] eqn:Hpts; [|done].
  destruct (scipy_griddata _ _ _ _ _ _ _) as [e|grid_vp] eqn:Hgrid; [done|].
  destruct (fill_holes _ _ grid_vp) as [[e|[]] filled] eqn:Hfill; [done|].
  intros _. cbn [snd].
  unfold smooth, mbind, M_bind, bind, emit, assign, modify, attr. cbn [self trace CrustModel.vel CrustModel.set_vel snd fst].
  rewrite griddata_run.
  cbn [self trace CrustModel.points CrustModel.set_vel CrustModel.set_zeta
         CrustModel.set_xi CrustModel.set_eta CrustModel.set_pp CrustModel.set_tt
         CrustModel.set_dd].
  rewrite Hpts, Hgrid, Hfill. done.
Qed.
End GriddataAgain.

Lemma griddata_discards_smoothing_witness :
  (griddata any_four depth_of_query two_ends
     (0, 50)%float (30, 40)%float (100, 110)%float (2, 1, 2) four_model).1 = inr () ∧
  (griddata any_four depth_of_query two_ends
     (0, 50)%float (30, 40)%float (100, 110)%float (2, 1, 2)
     (smooth three_weights 5%float
        (griddata any_four depth_of_query two_ends
           (0, 50)%float (30, 40)%float (100, 110)%float (2, 1, 2) four_model).2).2).1
    = inr () ∧
  self (griddata any_four depth_of_query two_ends
          (0, 50)%float (30, 40)%float (100, 110)%float (2, 1, 2)
          (smooth three_weights 5%float
             (griddata any_four depth_of_query two_ends
                (0, 50)%float (30, 40)%float (100, 110)%float (2, 1, 2) four_model).2).2).2
    = self (griddata any_four depth_of_query two_ends
              (0, 50)%float (30, 40)%float (100, 110)%float (2, 1, 2) four_model).2.
Proof.
  split; [reflexivity|].
  apply (griddata_discards_smoothing any_four depth_of_query two_ends three_weights
           (0, 50)%float (30, 40)%float (100, 110)%float (2, 1, 2) 5%float four_model).
  reflexivity.
Defined.
